(** * acsi2stm: the ACSI command dispatcher and its SD storage layer

    A shallow embedding of [acsi2stm.ino].  The firmware is a single
    thread that mutates a handful of globals and talks to two peers: the
    SD card driver ([Sd2Card]) and the Atari DMA controller on the ACSI
    bus.  Globals become the record [State]; the two peers become the
    record [Env], whose fields give the outcome of the n-th call of each
    driver entry point; every externally visible action is logged as an
    [event].  Code is written in a state-and-log monad [M].

    The GPIO register pokes of the bus signal layer (pin directions, DRQ
    pulse widths, interrupt masking, the LED) are below the level of this
    model: [sendDma], [readDma] and [sendStatus] are atomic actions whose
    busy-waits on the peer are taken to complete. *)

From stdpp Require Import base numbers list.

Local Open Scope Z_scope.

(** ** Constants *)

Definition MAXTRIES_SD : Z := 5.
Definition BLOCKSIZE : Z := 512.

(** [static unsigned char inquiry_data[]]: 36 bytes. *)
Definition inquiry_data : list Z :=
  [ 0; 0; 1; 0; 31;
    0; 0; 0;
    82; 101; 116; 114; 111; 49; 54; 32;      (* "Retro16 " *)
    65; 67; 83; 73; 50; 83; 84; 77;          (* "ACSI2STM" *)
    32; 83; 68; 32; 99; 97; 114; 100;        (* " SD card" *)
    118; 49; 46; 48 ].                       (* "v1.0"     *)

(** ** Machine integers *)

(** Conversion to [uint8_t] and to [uint32_t]. *)
Definition u8 (x : Z) : Z := x `mod` 256.
Definition u32 (x : Z) : Z := x `mod` 2 ^ 32.

(** ** Globals *)

Record State := mkState {
  cmdBuf   : list Z;   (* uint8_t cmdBuf[6] *)
  dataBuf  : list Z;   (* uint8_t dataBuf[BLOCKSIZE] *)
  sdBlocks : Z;        (* uint32_t: number of blocks on the SD card *)
  sdReady  : bool;     (* true once an SD card has been initialized *)
  (* how many times each driver entry point has been called so far *)
  n_init   : nat;
  n_read   : nat;
  n_write  : nat;
  n_dma    : nat
}.

(** ** The outside world *)

Record Env := mkEnv {
  card_init       : nat -> bool;     (* result of the n-th card.init *)
  card_cardSize   : nat -> Z;        (* card.cardSize() after the n-th init *)
  card_readBlock  : nat -> bool;     (* result of the n-th card.readBlock *)
  card_readData   : nat -> list Z;   (* bytes the n-th card.readBlock stores *)
  card_writeBlock : nat -> bool;     (* result of the n-th card.writeBlock *)
  bus_dmaData     : nat -> list Z    (* bytes the peer supplies to the n-th readDma *)
}.

Inductive event :=
| EvCardInit                                   (* card.init(SPI_FULL_SPEED, SD_CS) *)
| EvCardRead  (block : Z)                      (* card.readBlock(block, dataBuf) *)
| EvCardWrite (block : Z) (data : list Z)      (* card.writeBlock(block, dataBuf) *)
| EvSendDma   (bytes : list Z)                 (* sendDma(count): bytes put on the bus *)
| EvReadDma   (count : Z)                      (* readDma(count) *)
| EvStatus    (code : Z)                       (* sendStatus(code) *)
| EvFeed                                       (* IWDG_BASE->KR = IWDG_KR_FEED *)
| EvDelay     (ms : Z).                        (* delay(ms) *)

(** ** The monad: state passing plus a log of events *)

Definition M (A : Type) : Type := State -> A * State * list event.

#[global] Instance M_ret : MRet M := fun A a s => (a, s, []).

#[global] Instance M_bind : MBind M := fun A B f m s =>
  let '(a, s1, e1) := m s in
  let '(b, s2, e2) := f a s1 in
  (b, s2, e1 ++ e2).

Definition value  {A} (r : A * State * list event) : A := r.1.1.
Definition final  {A} (r : A * State * list event) : State := r.1.2.
Definition events {A} (r : A * State * list event) : list event := r.2.

Definition emit (e : event) : M unit := fun s => (tt, s, [e]).
Definition gets {A} (f : State -> A) : M A := fun s => (f s, s, []).
Definition modify (f : State -> State) : M unit := fun s => (tt, f s, []).

Definition set_dataBuf (b : list Z) (s : State) : State :=
  mkState (cmdBuf s) b (sdBlocks s) (sdReady s)
          (n_init s) (n_read s) (n_write s) (n_dma s).
Definition set_cmdBuf (c : list Z) (s : State) : State :=
  mkState c (dataBuf s) (sdBlocks s) (sdReady s)
          (n_init s) (n_read s) (n_write s) (n_dma s).
Definition set_sdBlocks (n : Z) (s : State) : State :=
  mkState (cmdBuf s) (dataBuf s) n (sdReady s)
          (n_init s) (n_read s) (n_write s) (n_dma s).
Definition set_sdReady (r : bool) (s : State) : State :=
  mkState (cmdBuf s) (dataBuf s) (sdBlocks s) r
          (n_init s) (n_read s) (n_write s) (n_dma s).
Definition tick_init (s : State) : State :=
  mkState (cmdBuf s) (dataBuf s) (sdBlocks s) (sdReady s)
          (S (n_init s)) (n_read s) (n_write s) (n_dma s).
Definition tick_read (s : State) : State :=
  mkState (cmdBuf s) (dataBuf s) (sdBlocks s) (sdReady s)
          (n_init s) (S (n_read s)) (n_write s) (n_dma s).
Definition tick_write (s : State) : State :=
  mkState (cmdBuf s) (dataBuf s) (sdBlocks s) (sdReady s)
          (n_init s) (n_read s) (S (n_write s)) (n_dma s).
Definition tick_dma (s : State) : State :=
  mkState (cmdBuf s) (dataBuf s) (sdBlocks s) (sdReady s)
          (n_init s) (n_read s) (n_write s) (S (n_dma s)).

(** [cmdBuf[i]] and [dataBuf[i] = v]. *)
Definition cmd (i : nat) : M Z := gets (fun s => nth i (cmdBuf s) 0).
Definition poke (i : nat) (v : Z) : M unit :=
  modify (fun s => set_dataBuf (<[i := u8 v]> (dataBuf s)) s).

(** A driver that fills the buffer from its start: the first bytes of
    [dst] are replaced by [src], the size of [dst] is unchanged. *)
Definition store_bytes (src dst : list Z) : list Z :=
  take (length dst) (src ++ drop (length src) dst).

(** ** The firmware *)

Section Firmware.

Context (env : Env).

(** *** Driver and bus primitives *)

(** [card.readBlock(block, dataBuf)] *)
Definition cardRead (block : Z) : M bool :=
  n ← gets n_read;
  emit (EvCardRead block);;
  modify tick_read;;
  modify (fun s => set_dataBuf (store_bytes (card_readData env n) (dataBuf s)) s);;
  mret (card_readBlock env n).

(** [card.writeBlock(block, dataBuf)] *)
Definition cardWrite (block : Z) : M bool :=
  n ← gets n_write;
  buf ← gets dataBuf;
  emit (EvCardWrite block buf);;
  modify tick_write;;
  mret (card_writeBlock env n).

(** [sendDma(count)]: the first [count] bytes of [dataBuf] go to the peer. *)
Definition sendDma (count : Z) : M unit :=
  buf ← gets dataBuf;
  emit (EvSendDma (take (Z.to_nat count) buf)).

(** [readDma(count)]: [count] bytes from the peer land in [dataBuf]. *)
Definition readDma (count : Z) : M unit :=
  n ← gets n_dma;
  emit (EvReadDma count);;
  modify tick_dma;;
  modify (fun s => set_dataBuf
            (store_bytes (take (Z.to_nat count) (bus_dmaData env n)) (dataBuf s)) s).

Definition sendStatus (s : Z) : M unit := emit (EvStatus s).
Definition commandSuccess : M unit := sendStatus 0.
Definition commandError : M unit := sendStatus 2.

(** [for (uint8_t b = lo; b < lo + n; ++b) body(b)] *)
Fixpoint forBytes (n : nat) (b : nat) (body : nat -> M unit) : M unit :=
  match n with
  | O => mret tt
  | S n' => body b;; forBytes n' (S b) body
  end.

(** *** Command reception *)

(** The command frame assembled from the six port samples [b] that
    [waitCommand] latches (the data lines are bits 8..15 of the port):
    [cmdBuf[0] = (b >> 8) & 0b00011111] and [cmdBuf[i] = b >> 8]. *)
Definition frame (b : list Z) : list Z :=
  [ Z.land (nth 0 b 0 ≫ 8) 31;
    u8 (nth 1 b 0 ≫ 8);
    u8 (nth 2 b 0 ≫ 8);
    u8 (nth 3 b 0 ≫ 8);
    u8 (nth 4 b 0 ≫ 8);
    u8 (nth 5 b 0 ≫ 8) ].

(** [waitCommand] polls the port, feeding the watchdog, until a byte
    addressed to this device shows up, and then latches the five bytes
    that follow.  The polling is not modelled: [b] are the six samples it
    ends up latching. *)
Definition waitCommand (b : list Z) : M unit :=
  modify (set_cmdBuf (frame b)).

(** *** Storage access *)

Definition sdInit : M bool :=
  n ← gets n_init;
  emit EvCardInit;;
  modify tick_init;;
  modify (set_sdReady (card_init env n));;
  ready ← gets sdReady;
  (if (ready : bool) then modify (set_sdBlocks (u32 (card_cardSize env n))) else mret tt);;
  gets sdReady.

(** The loop shared by [writeBlock] and [readBlock]:
[[
  while(!op() && tries-- > 0) {
    delay(10);
    IWDG_BASE->KR = IWDG_KR_FEED;
    if(tries <= MAXTRIES_SD / 2 && !sdInit()) return false;
  }
  return tries > 0;
]]
    [tries] holds the value of the C variable when the condition is
    evaluated; it is then between [MAXTRIES_SD] and 0.  When the driver
    fails at [tries = 0] the post-decrement leaves -1 and the loop ends. *)
Fixpoint retryLoop (op : M bool) (tries : nat) : M bool :=
  ok ← op;
  if (ok : bool) then mret (0 <? Z.of_nat tries)
  else match tries with
       | O => mret (0 <? -1)
       | S t =>
           emit (EvDelay 10);;
           emit EvFeed;;
           if Z.of_nat t <=? MAXTRIES_SD `quot` 2 then
             up ← sdInit;
             if (up : bool) then retryLoop op t else mret false
           else retryLoop op t
       end.

Definition writeBlock (block : Z) : M bool :=
  retryLoop (cardWrite block) (Z.to_nat MAXTRIES_SD).

Definition readBlock (block : Z) : M bool :=
  retryLoop (cardRead block) (Z.to_nat MAXTRIES_SD).

(** *** Command execution *)

(** [(((int)cmdBuf[1])<<16) | (((int)cmdBuf[2]) << 8) | (cmdBuf[3])] *)
Definition blockNumber (c : list Z) : Z :=
  Z.lor (Z.lor (nth 1 c 0 ≪ 16) (nth 2 c 0 ≪ 8)) (nth 3 c 0).

(** [block + cmdBuf[4] - 1 >= sdBlocks]: the left side is an [int], the
    right side a [uint32_t], so the comparison is made on [uint32_t]. *)
Definition outOfRange (block count blocks : Z) : bool :=
  blocks <=? u32 (block + count - 1).

(** [for(int blocks = cmdBuf[4]; blocks--; block++)] of Read block *)
Fixpoint readLoop (blocks : nat) (block : Z) : M unit :=
  match blocks with
  | O => commandSuccess
  | S blocks' =>
      emit EvFeed;;
      ok ← readBlock block;
      if negb ok then commandError
      else sendDma BLOCKSIZE;; readLoop blocks' (block + 1)
  end.

(** [for(int blocks = cmdBuf[4]; blocks--; block++)] of Write block *)
Fixpoint writeLoop (blocks : nat) (block : Z) : M unit :=
  match blocks with
  | O => commandSuccess
  | S blocks' =>
      emit EvFeed;;
      readDma BLOCKSIZE;;
      ok ← writeBlock block;
      if negb ok then commandError
      else writeLoop blocks' (block + 1)
  end.

Definition testReady : M unit :=
  ok ← sdInit;
  if negb ok then commandError else commandSuccess.

Definition requestSense : M unit :=
  ok ← sdInit;
  if negb ok then commandError
  else
    poke 0 0x80;;
    blocks ← gets sdBlocks;
    poke 1 (Z.land (blocks ≫ 16) 0xFF);;
    poke 2 (Z.land (blocks ≫ 8) 0xFF);;
    poke 3 (Z.land blocks 0xFF);;
    len ← cmd 4;
    forBytes (Z.to_nat len - 4) 4 (fun b => poke b 0);;
    sendDma len;;
    commandSuccess.

Definition readCommand : M unit :=
  c ← gets cmdBuf;
  blocks ← gets sdBlocks;
  if outOfRange (blockNumber c) (nth 4 c 0) blocks then commandError
  else readLoop (Z.to_nat (nth 4 c 0)) (blockNumber c).

Definition writeCommand : M unit :=
  c ← gets cmdBuf;
  blocks ← gets sdBlocks;
  if outOfRange (blockNumber c) (nth 4 c 0) blocks then commandError
  else writeLoop (Z.to_nat (nth 4 c 0)) (blockNumber c).

Definition inquiry : M unit :=
  len ← cmd 4;
  forBytes (Z.to_nat len) 0
    (fun b => if (b <? length inquiry_data)%nat
              then poke b (nth b inquiry_data 0)
              else poke b 0);;
  sendDma len;;
  commandSuccess.

Definition modeSense : M unit :=
  sub ← cmd 2;
  match sub with
  | 0x00 =>
      forBytes 16 0 (fun b => poke b 0);;
      poke 1 14;;
      poke 3 8;;
      blocks ← gets sdBlocks;
      poke 5 (Z.land (blocks ≫ 16) 0xFF);;
      poke 6 (Z.land (blocks ≫ 8) 0xFF);;
      poke 7 (Z.land blocks 0xFF);;
      poke 10 2;;
      sendDma 16
  | 0x04 =>
      poke 0 4;;
      poke 1 22;;
      blocks ← gets sdBlocks;
      poke 2 (Z.land (blocks ≫ 23) 0xFF);;
      poke 3 (Z.land (blocks ≫ 15) 0xFF);;
      poke 4 (Z.land (blocks ≫ 7) 0xFF);;
      poke 5 128;;
      forBytes 24 0 (fun b => poke b 0);;
      sendDma 24
  | _ => mret tt
  end;;
  commandSuccess.

(** The [switch(cmdBuf[0])] of [loop]. *)
Definition execute : M unit :=
  op ← cmd 0;
  match op with
  | 0x0B | 0x0D | 0x15 | 0x1B => commandSuccess
  | 0x00 | 0x04 | 0x05 | 0x06 => testReady
  | 0x03 => requestSense
  | 0x08 => readCommand
  | 0x0A => writeCommand
  | 0x12 => inquiry
  | 0x1A => modeSense
  | _ => commandError
  end.

(** One command cycle; [b] are the port samples of the incoming frame. *)
Definition loop (b : list Z) : M unit :=
  waitCommand b;;
  ready ← gets sdReady;
  if negb ready then
    ok ← sdInit;
    if negb ok then commandError else execute
  else execute.

End Firmware.

Arguments u8 : simpl never.
Arguments u32 : simpl never.

(** ** What a run shows to the outside *)

(** The status bytes sent, in order. *)
Definition statusOf (e : event) : option Z :=
  match e with EvStatus c => Some c | _ => None end.
Definition statuses (l : list event) : list Z := omap statusOf l.

(** Storage block operations, DMA transfers and status bytes: the
    watchdog, the delays and card initialization are left out. *)
Inductive action :=
| ARead    (block : Z)
| AWrite   (block : Z)
| ASend    (len : nat)
| AReceive (count : Z)
| AStatus  (code : Z).

Definition actionOf (e : event) : option action :=
  match e with
  | EvCardRead b => Some (ARead b)
  | EvCardWrite b _ => Some (AWrite b)
  | EvSendDma l => Some (ASend (length l))
  | EvReadDma n => Some (AReceive n)
  | EvStatus c => Some (AStatus c)
  | EvCardInit | EvFeed | EvDelay _ => None
  end.
Definition actions (l : list event) : list action := omap actionOf l.

(** Number of single-block driver calls and of [card.init] calls. *)
Definition isBlockOp (e : event) : bool :=
  match e with EvCardRead _ | EvCardWrite _ _ => true | _ => false end.
Definition isInit (e : event) : bool :=
  match e with EvCardInit => true | _ => false end.
Definition blockOps (l : list event) : nat := length (List.filter isBlockOp l).
Definition inits (l : list event) : nat := length (List.filter isInit l).

(** The capacity on record when a command is executed: the ready check
    at the top of [loop] refreshes it from the card if the card was not
    ready. *)
Definition capacityAtDispatch (env : Env) (s : State) : Z :=
  if sdReady s then sdBlocks s
  else if card_init env (n_init s) then u32 (card_cardSize env (n_init s))
  else sdBlocks s.

(** The ready check lets the command through to the opcode switch: the
    card is ready, or [sdInit] brings it up. *)
Definition cardUsable (env : Env) (s : State) : bool :=
  sdReady s || card_init env (n_init s).

(** Code that sends no status byte. *)
Definition quiet {A} (m : M A) : Prop :=
  forall s, statuses (events (m s)) = [].

(** Code whose last action is its only status byte, 0 or 2. *)
Definition closing {A} (m : M A) : Prop :=
  forall s, exists pre c,
    events (m s) = pre ++ [EvStatus c] /\ statuses pre = [] /\ (c = 0 \/ c = 2).

(** The outcomes of the next [k] calls of a driver entry point whose
    call counter stands at [base]. *)
Definition upcoming (f : nat -> bool) (base k : nat) : list bool :=
  map (fun i => f (i + base)%nat) (seq 0 k).

(** The globals when the opcode switch is entered. *)
Definition atDispatch (env : Env) (b : list Z) (s : State) : State :=
  if sdReady s then set_cmdBuf (frame b) s
  else final (sdInit env (set_cmdBuf (frame b) s)).

(** ** Cards and states for concrete runs *)

(** The globals after [setup] found no card. *)
Definition bootState : State :=
  mkState (replicate 6 0) (replicate 512 0) (4000 * 2048) false 0 0 0 0.

(** The globals with a card of [blocks] blocks initialized. *)
Definition readyState (blocks : Z) : State :=
  mkState (replicate 6 0) (replicate 512 0) blocks true 1 0 0 0.

(** A card of 100 blocks on which everything works. *)
Definition goodCard : Env :=
  mkEnv (fun _ => true) (fun _ => 100) (fun _ => true)
        (fun n => replicate 512 (Z.of_nat n)) (fun _ => true)
        (fun n => replicate 512 (Z.of_nat n)).

(** A card that answers [card.init] but fails every block operation. *)
Definition deadCard : Env :=
  mkEnv (fun _ => true) (fun _ => 100) (fun _ => false) (fun _ => [])
        (fun _ => false) (fun _ => replicate 512 0).

(** A card whose block operations fail five times and work from then on. *)
Definition slowCard : Env :=
  mkEnv (fun _ => true) (fun _ => 100) (fun n => 5 <=? n)%nat (fun _ => [])
        (fun n => 5 <=? n)%nat (fun _ => replicate 512 0).

(** A card that fails every block operation and stops answering
    [card.init] at the second attempt. *)
Definition dyingCard : Env :=
  mkEnv (fun n => n <? 1)%nat (fun _ => 100) (fun _ => false) (fun _ => [])
        (fun _ => false) (fun _ => replicate 512 0).

(** No card in the slot: [card.init] fails. *)
Definition noCard : Env :=
  mkEnv (fun _ => false) (fun _ => 0) (fun _ => false) (fun _ => [])
        (fun _ => false) (fun _ => replicate 512 0).


(** A card of 100 blocks whose first block operation works and whose
    later ones all fail. *)
Definition wornCard : Env :=
  mkEnv (fun _ => true) (fun _ => 100) (fun n => n <? 1)%nat (fun _ => [])
        (fun n => n <? 1)%nat (fun _ => []).

(** A card of 2^24 + 5 blocks on which everything works. *)
Definition hugeCard : Env :=
  mkEnv (fun _ => true) (fun _ => 2 ^ 24 + 5) (fun _ => true) (fun _ => [])
        (fun _ => true) (fun _ => []).

(** Code all of whose events satisfy [P]. *)
Definition confined {A} (P : event -> Prop) (m : M A) : Prop :=
  forall s, Forall P (events (m s)).

(** Code that leaves the observation [f] of the globals as it found it
    unless it calls [card.init]. *)
Definition steady {A X} (f : State -> X) (m : M A) : Prop :=
  forall s, inits (events (m s)) = 0%nat -> f (final (m s)) = f s.

(** ** Command reception, sample by sample *)

(** ID on the ACSI bus, and the CS and A1 lines of port B. *)
Definition ACSI_ID : Z := 0.
Definition CS_MASK : Z := 0x80.   (* 0b10000000 *)
Definition A1_MASK : Z := 0x40.   (* 0b1000000 *)

(** The first loop of [waitCommand], run on the successive values [port]
    read from [GPIOB->regs->IDR]:
[[
  do {
    while((b = GPIOB->regs->IDR) & (A1_MASK | CS_MASK))
      IWDG_BASE->KR = IWDG_KR_FEED;
  } while(((b) >> (8+5)) != ACSI_ID);
]]
    The result is the sample that ends the loop, the samples not yet read
    and the number of times the watchdog was fed; [None] when the samples
    run out with the loop still waiting. *)
Fixpoint awaitAddress (port : list Z) : option (Z * list Z * nat) :=
  match port with
  | [] => None
  | b :: rest =>
      if Z.land b (Z.lor A1_MASK CS_MASK) =? 0 then
        if (b ≫ (8 + 5)) =? ACSI_ID then Some (b, rest, 0%nat)
        else awaitAddress rest
      else
        match awaitAddress rest with
        | Some (b', rest', feeds) => Some (b', rest', S feeds)
        | None => None
        end
  end.

(** [while((b = GPIOB->regs->IDR) & (CS_MASK));] *)
Fixpoint awaitByte (port : list Z) : option (Z * list Z) :=
  match port with
  | [] => None
  | b :: rest =>
      if Z.land b CS_MASK =? 0 then Some (b, rest) else awaitByte rest
  end.

(** The [for(int i = 1; i < 6; ++i)] loop of [waitCommand], [n] bytes
    to go. *)
Fixpoint awaitBytes (n : nat) (port : list Z) : option (list Z * list Z) :=
  match n with
  | O => Some ([], port)
  | S n' =>
      match awaitByte port with
      | Some (b, rest) =>
          match awaitBytes n' rest with
          | Some (bs, rest') => Some (b :: bs, rest')
          | None => None
          end
      | None => None
      end
  end.

(** The six samples [waitCommand] latches from [port], what is left of
    [port], and the number of watchdog feeds. *)
Definition latchCommand (port : list Z) : option (list Z * list Z * nat) :=
  match awaitAddress port with
  | Some (b, rest, feeds) =>
      match awaitBytes 5 rest with
      | Some (bs, rest') => Some (b :: bs, rest', feeds)
      | None => None
      end
  | None => None
  end.

(** A sample that ends the first loop of [waitCommand]: A1 and CS are
    low and the three top data lines carry [ACSI_ID]. *)
Definition addressed (b : Z) : bool :=
  (Z.land b (Z.lor A1_MASK CS_MASK) =? 0) && ((b ≫ (8 + 5)) =? ACSI_ID).

(** A sample on which the first loop feeds the watchdog. *)
Definition strobeHigh (b : Z) : bool :=
  negb (Z.land b (Z.lor A1_MASK CS_MASK) =? 0).

(** ** Successive command cycles *)

(** [loop] called once per incoming frame, as the Arduino core does. *)
Fixpoint session (env : Env) (frames : list (list Z)) : M unit :=
  match frames with
  | [] => mret tt
  | b :: rest => loop env b;; session env rest
  end.

(** Code that leaves the observation [f] of the globals as it found it. *)
Definition keeps {A X} (f : State -> X) (m : M A) : Prop :=
  forall s, f (final (m s)) = f s.

(** The opcodes [loop] knows. *)
Definition knownOpcodes : list Z :=
  [0x0B; 0x0D; 0x15; 0x1B; 0x00; 0x04; 0x05; 0x06; 0x03; 0x08; 0x0A; 0x12; 0x1A].

(** ** Running monadic code *)

Section Run.

Context {A B : Type}.

Lemma run_bind (m : M A) (f : A -> M B) s :
  (m ≫= f) s =
  (value (f (value (m s)) (final (m s))),
   final (f (value (m s)) (final (m s))),
   events (m s) ++ events (f (value (m s)) (final (m s)))).
Proof.
  unfold mbind, M_bind, value, final, events.
  destruct (m s) as [[a s1] e1]; simpl.
  destruct (f a s1) as [[b s2] e2]; reflexivity.
Qed.

Lemma events_bind (m : M A) (f : A -> M B) s :
  events ((m ≫= f) s) = events (m s) ++ events (f (value (m s)) (final (m s))).
Proof. rewrite run_bind; reflexivity. Qed.

Lemma value_bind (m : M A) (f : A -> M B) s :
  value ((m ≫= f) s) = value (f (value (m s)) (final (m s))).
Proof. rewrite run_bind; reflexivity. Qed.

Lemma final_bind (m : M A) (f : A -> M B) s :
  final ((m ≫= f) s) = final (f (value (m s)) (final (m s))).
Proof. rewrite run_bind; reflexivity. Qed.

End Run.

Lemma statuses_app l1 l2 : statuses (l1 ++ l2) = statuses l1 ++ statuses l2.
Proof. apply omap_app. Qed.

Lemma actions_app l1 l2 : actions (l1 ++ l2) = actions l1 ++ actions l2.
Proof. apply omap_app. Qed.

Lemma blockOps_app l1 l2 : blockOps (l1 ++ l2) = (blockOps l1 + blockOps l2)%nat.
Proof. unfold blockOps. by rewrite List.filter_app, length_app. Qed.

Lemma inits_app l1 l2 : inits (l1 ++ l2) = (inits l1 + inits l2)%nat.
Proof. unfold inits. by rewrite List.filter_app, length_app. Qed.

(** ** Every command cycle ends in one status byte *)

Lemma quiet_ret {A} (a : A) : quiet (mret a).
Proof. intros s; reflexivity. Qed.

Lemma quiet_gets {A} (f : State -> A) : quiet (gets f).
Proof. intros s; reflexivity. Qed.

Lemma quiet_modify f : quiet (modify f).
Proof. intros s; reflexivity. Qed.

Lemma quiet_emit e : statusOf e = None -> quiet (emit e).
Proof. intros He s; unfold emit, events, statuses; simpl. by rewrite He. Qed.

Lemma quiet_bind {A B} (m : M A) (f : A -> M B) :
  quiet m -> (forall a, quiet (f a)) -> quiet (m ≫= f).
Proof.
  intros Hm Hf s. rewrite events_bind, statuses_app, Hm, Hf. reflexivity.
Qed.

Lemma closing_bind {A B} (m : M A) (f : A -> M B) :
  quiet m -> (forall a, closing (f a)) -> closing (m ≫= f).
Proof.
  intros Hm Hf s.
  destruct (Hf (value (m s)) (final (m s))) as (pre & c & He & Hpre & Hc).
  exists (events (m s) ++ pre), c.
  rewrite events_bind, He, statuses_app, Hm, Hpre.
  split; [by rewrite app_assoc | done].
Qed.

Lemma closing_success : closing commandSuccess.
Proof. intros s; exists [], 0; auto. Qed.

Lemma closing_error : closing commandError.
Proof. intros s; exists [], 2; auto. Qed.

Create HintDb acsi.

#[local] Hint Resolve quiet_ret quiet_gets quiet_modify quiet_bind
  closing_bind closing_success closing_error : acsi.
#[local] Hint Extern 1 (quiet (emit _)) => (apply quiet_emit; reflexivity) : acsi.
#[local] Hint Extern 2 (quiet (if ?c then _ else _)) => destruct c : acsi.
#[local] Hint Extern 2 (closing (if ?c then _ else _)) => destruct c : acsi.

Lemma quiet_forBytes body n b :
  (forall i, quiet (body i)) -> quiet (forBytes n b body).
Proof.
  intros Hbody; revert b; induction n as [|n IH]; intros b; cbn [forBytes];
    auto with acsi.
Qed.

Lemma quiet_poke i v : quiet (poke i v).
Proof. unfold poke; auto with acsi. Qed.

Lemma quiet_cmd i : quiet (cmd i).
Proof. unfold cmd; auto with acsi. Qed.

Lemma quiet_sdInit env : quiet (sdInit env).
Proof. unfold sdInit; auto 10 with acsi. Qed.

Lemma quiet_cardRead env block : quiet (cardRead env block).
Proof. unfold cardRead; auto 10 with acsi. Qed.

Lemma quiet_cardWrite env block : quiet (cardWrite env block).
Proof. unfold cardWrite; auto 10 with acsi. Qed.

Lemma quiet_sendDma count : quiet (sendDma count).
Proof. unfold sendDma; auto with acsi. Qed.

Lemma quiet_readDma env count : quiet (readDma env count).
Proof. unfold readDma; auto 10 with acsi. Qed.

#[local] Hint Resolve quiet_forBytes quiet_poke quiet_cmd quiet_sdInit
  quiet_cardRead quiet_cardWrite quiet_sendDma quiet_readDma : acsi.

Lemma quiet_retryLoop env op tries : quiet op -> quiet (retryLoop env op tries).
Proof.
  intros Hop; induction tries as [|t IH]; cbn [retryLoop].
  - apply quiet_bind; [done|]. intros []; auto with acsi.
  - apply quiet_bind; [done|]. intros []; [auto with acsi|].
    do 2 (apply quiet_bind; [auto with acsi|intros _]).
    destruct (_ <=? _); [|done].
    apply quiet_bind; [auto with acsi|]. intros []; auto with acsi.
Qed.

Lemma quiet_readBlock env block : quiet (readBlock env block).
Proof. unfold readBlock; apply quiet_retryLoop; auto with acsi. Qed.

Lemma quiet_writeBlock env block : quiet (writeBlock env block).
Proof. unfold writeBlock; apply quiet_retryLoop; auto with acsi. Qed.

#[local] Hint Resolve quiet_readBlock quiet_writeBlock : acsi.

Lemma closing_readLoop env blocks block : closing (readLoop env blocks block).
Proof.
  revert block; induction blocks as [|n IH]; intros block; cbn [readLoop];
    auto 10 with acsi.
Qed.

Lemma closing_writeLoop env blocks block : closing (writeLoop env blocks block).
Proof.
  revert block; induction blocks as [|n IH]; intros block; cbn [writeLoop];
    auto 10 with acsi.
Qed.

#[local] Hint Resolve closing_readLoop closing_writeLoop : acsi.

Lemma closing_testReady env : closing (testReady env).
Proof. unfold testReady; auto with acsi. Qed.

Lemma closing_requestSense env : closing (requestSense env).
Proof. unfold requestSense; auto 20 with acsi. Qed.

Lemma closing_readCommand env : closing (readCommand env).
Proof. unfold readCommand; auto with acsi. Qed.

Lemma closing_writeCommand env : closing (writeCommand env).
Proof. unfold writeCommand; auto with acsi. Qed.

Lemma closing_inquiry : closing inquiry.
Proof.
  unfold inquiry.
  apply closing_bind; [auto with acsi|intros len].
  apply closing_bind; [|auto with acsi].
  apply quiet_forBytes; intros i; destruct (_ <? _)%nat; auto with acsi.
Qed.

Lemma closing_modeSense : closing modeSense.
Proof.
  unfold modeSense.
  apply closing_bind; [auto with acsi|intros sub].
  apply closing_bind; [|auto with acsi].
  repeat match goal with
         | |- quiet (match ?x with _ => _ end) => destruct x
         end; auto 20 with acsi.
Qed.

#[local] Hint Resolve closing_testReady closing_requestSense
  closing_readCommand closing_writeCommand closing_inquiry
  closing_modeSense : acsi.

Lemma closing_execute env : closing (execute env).
Proof.
  unfold execute.
  apply closing_bind; [auto with acsi|intros op].
  repeat match goal with
         | |- closing (match ?x with _ => _ end) => destruct x
         end; auto with acsi.
Qed.

Lemma closing_loop env b : closing (loop env b).
Proof.
  pose proof (closing_execute env).
  unfold loop, waitCommand; auto 10 with acsi.
Qed.

(** C7: every command cycle, whatever the incoming frame, the state of
    the globals and the answers of the card and of the peer, sends exactly
    one status byte, and sending it is the last thing the cycle does. *)
Theorem loop_sends_one_status env b s :
  length (statuses (events (loop env b s))) = 1%nat /\
  exists pre c,
    events (loop env b s) = pre ++ [EvStatus c] /\ statuses pre = [].
Proof.
  destruct (closing_loop env b s) as (pre & c & He & Hpre & _).
  split; [|eauto].
  by rewrite He, statuses_app, Hpre.
Qed.

(** C8: every status byte sent during a command cycle is 0 or 2. *)
Theorem loop_status_codes env b s :
  Forall (fun c => c = 0 \/ c = 2) (statuses (events (loop env b s))).
Proof.
  destruct (closing_loop env b s) as (pre & c & He & Hpre & Hc).
  rewrite He, statuses_app, Hpre; simpl.
  by constructor.
Qed.

(** ** The retry loop of the storage access layer *)

Lemma run_eta {A} (r : A * State * list event) : r = (value r, final r, events r).
Proof. by destruct r as [[a s] e]. Qed.

Lemma sdInit_run env s :
  sdInit env s =
  (card_init env (n_init s),
   (if card_init env (n_init s)
    then set_sdBlocks (u32 (card_cardSize env (n_init s)))
           (set_sdReady true (tick_init s))
    else set_sdReady false (tick_init s)),
   [EvCardInit]).
Proof.
  unfold sdInit; repeat rewrite run_bind; cbn.
  by destruct (card_init env (n_init s)).
Qed.

Lemma cardRead_run env block s :
  cardRead env block s =
  (card_readBlock env (n_read s),
   set_dataBuf (store_bytes (card_readData env (n_read s)) (dataBuf s)) (tick_read s),
   [EvCardRead block]).
Proof. reflexivity. Qed.

Lemma cardWrite_run env block s :
  cardWrite env block s =
  (card_writeBlock env (n_write s), tick_write s, [EvCardWrite block (dataBuf s)]).
Proof. reflexivity. Qed.

Section RetryLoop.

Context (env : Env).

(** A single-block driver call [op]: it logs one event, its result is
    the [outcome] at its call counter [ctr], and it shares no counter
    with [card.init]. *)
Context (op : M bool) (outcome : nat -> bool) (ctr : State -> nat).
Hypothesis op_value : forall s, value (op s) = outcome (ctr s).
Hypothesis op_event : forall s, exists e, events (op s) = [e] /\ isBlockOp e = true.
Hypothesis op_ctr : forall s, ctr (final (op s)) = S (ctr s).
Hypothesis op_n_init : forall s, n_init (final (op s)) = n_init s.
Hypothesis init_ctr : forall s, ctr (final (sdInit env s)) = ctr s.

(** One equation per way through the loop. *)

Lemma retry_success tries s :
  outcome (ctr s) = true ->
  retryLoop env op tries s = (0 <? Z.of_nat tries, final (op s), events (op s)).
Proof.
  intros H. rewrite <- op_value in H.
  destruct tries; cbn [retryLoop]; rewrite run_bind, H;
    cbn; by rewrite app_nil_r.
Qed.

Lemma retry_exhausted s :
  outcome (ctr s) = false ->
  retryLoop env op 0 s = (false, final (op s), events (op s)).
Proof.
  intros H. rewrite <- op_value in H.
  cbn [retryLoop]; rewrite run_bind, H; cbn; by rewrite app_nil_r.
Qed.

Lemma retry_again t s :
  outcome (ctr s) = false ->
  MAXTRIES_SD `quot` 2 < Z.of_nat t ->
  retryLoop env op (S t) s =
  (value (retryLoop env op t (final (op s))),
   final (retryLoop env op t (final (op s))),
   events (op s) ++ EvDelay 10 :: EvFeed :: events (retryLoop env op t (final (op s)))).
Proof.
  intros H Ht. rewrite <- op_value in H.
  cbn [retryLoop]; rewrite run_bind, H.
  destruct (Z.leb_spec (Z.of_nat t) (MAXTRIES_SD `quot` 2)) as [|_]; [lia|].
  rewrite !run_bind; reflexivity.
Qed.

Lemma retry_reinit t s :
  outcome (ctr s) = false ->
  Z.of_nat t <= MAXTRIES_SD `quot` 2 ->
  card_init env (n_init s) = true ->
  retryLoop env op (S t) s =
  (value (retryLoop env op t (final (sdInit env (final (op s))))),
   final (retryLoop env op t (final (sdInit env (final (op s))))),
   events (op s) ++ EvDelay 10 :: EvFeed :: EvCardInit ::
     events (retryLoop env op t (final (sdInit env (final (op s)))))).
Proof.
  intros H Ht Hi. rewrite <- op_value in H. rewrite <- (op_n_init s) in Hi.
  cbn [retryLoop]; rewrite run_bind, H.
  destruct (Z.leb_spec (Z.of_nat t) (MAXTRIES_SD `quot` 2)) as [_|]; [|lia].
  rewrite !run_bind; cbn [value final events emit fst snd].
  replace (value (sdInit env (final (op s)))) with true
    by (by rewrite sdInit_run).
  replace (events (sdInit env (final (op s)))) with [EvCardInit]
    by (by rewrite sdInit_run).
  reflexivity.
Qed.

Lemma retry_reinit_fail t s :
  outcome (ctr s) = false ->
  Z.of_nat t <= MAXTRIES_SD `quot` 2 ->
  card_init env (n_init s) = false ->
  retryLoop env op (S t) s =
  (false, final (sdInit env (final (op s))),
   events (op s) ++ [EvDelay 10; EvFeed; EvCardInit]).
Proof.
  intros H Ht Hi. rewrite <- op_value in H. rewrite <- (op_n_init s) in Hi.
  cbn [retryLoop]; rewrite run_bind, H.
  destruct (Z.leb_spec (Z.of_nat t) (MAXTRIES_SD `quot` 2)) as [_|]; [|lia].
  rewrite !run_bind; cbn [value final events emit fst snd].
  replace (value (sdInit env (final (op s)))) with false
    by (by rewrite sdInit_run).
  replace (events (sdInit env (final (op s)))) with [EvCardInit]
    by (by rewrite sdInit_run).
  reflexivity.
Qed.

(** Counting through the loop. *)

Lemma blockOps_cons e l :
  blockOps (e :: l) = ((if isBlockOp e then 1 else 0) + blockOps l)%nat.
Proof. unfold blockOps; cbn. by destruct (isBlockOp e). Qed.

Lemma inits_cons e l :
  inits (e :: l) = ((if isInit e then 1 else 0) + inits l)%nat.
Proof. unfold inits; cbn. by destruct (isInit e). Qed.

Lemma blockOps_op s : blockOps (events (op s)) = 1%nat.
Proof. destruct (op_event s) as (e & -> & He). by rewrite blockOps_cons, He. Qed.

Lemma inits_op s : inits (events (op s)) = 0%nat.
Proof.
  destruct (op_event s) as (e & -> & He). rewrite inits_cons.
  by destruct e.
Qed.

Lemma n_init_sdInit s : n_init (final (sdInit env s)) = S (n_init s).
Proof. rewrite sdInit_run; cbn. by destruct (card_init env (n_init s)). Qed.

(** Whatever the driver and [card.init] answer, the driver is called at
    most once more than [tries]. *)
Lemma retry_blockOps_le tries s :
  (blockOps (events (retryLoop env op tries s)) <= S tries)%nat.
Proof.
  revert s; induction tries as [|t IH]; intros s.
  - destruct (outcome (ctr s)) eqn:Ho.
    + rewrite retry_success by done. cbn [events snd]. by rewrite blockOps_op.
    + rewrite retry_exhausted by done. cbn [events snd]. by rewrite blockOps_op.
  - destruct (outcome (ctr s)) eqn:Ho.
    { rewrite retry_success by done. cbn [events snd]. rewrite blockOps_op. lia. }
    destruct (Z.le_gt_cases (Z.of_nat t) (MAXTRIES_SD `quot` 2)) as [Ht|Ht].
    + destruct (card_init env (n_init s)) eqn:Hi.
      * rewrite retry_reinit by done. cbn [events snd].
        rewrite blockOps_app, blockOps_op, !blockOps_cons; cbn [isBlockOp].
        specialize (IH (final (sdInit env (final (op s))))). lia.
      * rewrite retry_reinit_fail by done. cbn [events snd].
        rewrite blockOps_app, blockOps_op. cbn. lia.
    + rewrite retry_again by (done || lia). cbn [events snd].
      rewrite blockOps_app, blockOps_op, !blockOps_cons; cbn [isBlockOp].
      specialize (IH (final (op s))). lia.
Qed.

(** A driver that fails every call makes the loop report failure. *)
Lemma retry_all_fail tries s :
  (forall n, outcome n = false) ->
  value (retryLoop env op tries s) = false.
Proof.
  intros Hfail; revert s; induction tries as [|t IH]; intros s.
  - by rewrite retry_exhausted.
  - destruct (Z.le_gt_cases (Z.of_nat t) (MAXTRIES_SD `quot` 2)) as [Ht|Ht].
    + destruct (card_init env (n_init s)) eqn:Hi.
      * rewrite retry_reinit by done. apply IH.
      * by rewrite retry_reinit_fail.
    + rewrite retry_again by (done || lia). apply IH.
Qed.

(** A driver that fails every call while [card.init] keeps succeeding is
    called once more than [tries], and [card.init] is called on each of
    the last retries, those made with at most [MAXTRIES_SD / 2] tries
    left. *)
Lemma retry_all_fail_counts tries s :
  (forall n, outcome n = false) ->
  (forall n, card_init env n = true) ->
  blockOps (events (retryLoop env op tries s)) = S tries /\
  inits (events (retryLoop env op tries s)) = (tries `min` 3)%nat.
Proof.
  intros Hfail Hinit; revert s; induction tries as [|t IH]; intros s.
  - rewrite retry_exhausted by done. cbn [events snd].
    by rewrite blockOps_op, inits_op.
  - destruct (Z.le_gt_cases (Z.of_nat t) (MAXTRIES_SD `quot` 2)) as [Ht|Ht].
    + rewrite retry_reinit by done. cbn [events snd].
      rewrite blockOps_app, inits_app, blockOps_op, inits_op,
        !blockOps_cons, !inits_cons; cbn [isBlockOp isInit].
      destruct (IH (final (sdInit env (final (op s))))) as [-> ->].
      change (MAXTRIES_SD `quot` 2) with 2 in Ht. lia.
    + rewrite retry_again by (done || lia). cbn [events snd].
      rewrite blockOps_app, inits_app, blockOps_op, inits_op,
        !blockOps_cons, !inits_cons; cbn [isBlockOp isInit].
      destruct (IH (final (op s))) as [-> ->].
      change (MAXTRIES_SD `quot` 2) with 2 in Ht. lia.
Qed.

(** The loop as the firmware runs it, with [MAXTRIES_SD] tries. *)

Ltac retry_side :=
  repeat first [ rewrite init_ctr | rewrite op_ctr
               | rewrite n_init_sdInit | rewrite op_n_init ];
  first [ assumption | change (MAXTRIES_SD `quot` 2) with 2; lia ].

Ltac retry_run :=
  change (Z.to_nat MAXTRIES_SD) with 5%nat;
  repeat first
    [ rewrite retry_success by retry_side
    | rewrite retry_exhausted by retry_side
    | rewrite retry_again by retry_side
    | rewrite retry_reinit by retry_side
    | rewrite retry_reinit_fail by retry_side ];
  cbn [value final events fst snd].

Ltac name_events :=
  repeat match goal with
         | |- context [events (op ?s)] =>
             let e := fresh "e" in
             let He := fresh "He" in
             destruct (op_event s) as (e & -> & He)
         end.

Ltac count_events :=
  name_events; unfold blockOps, inits; cbn;
  repeat match goal with
         | He : isBlockOp ?e = true |- _ =>
             rewrite ?He;
             replace (isInit e) with false by (by destruct e);
             clear He
         end.

(** Five failures, then a success: the sixth driver call is made and
    succeeds, but the loop was entered with no tries left and reports
    failure. *)
Lemma retry_late_success s :
  upcoming outcome (ctr s) 6 = [false; false; false; false; false; true] ->
  upcoming (card_init env) (n_init s) 3 = [true; true; true] ->
  value (retryLoop env op (Z.to_nat MAXTRIES_SD) s) = false /\
  blockOps (events (retryLoop env op (Z.to_nat MAXTRIES_SD) s)) = 6%nat /\
  (exists e, last (events (retryLoop env op (Z.to_nat MAXTRIES_SD) s)) = Some e /\
             isBlockOp e = true) /\
  ctr (final (retryLoop env op (Z.to_nat MAXTRIES_SD) s)) = (6 + ctr s)%nat.
Proof.
  intros Ho Hi; cbn in Ho, Hi.
  injection Ho as Ho0 Ho1 Ho2 Ho3 Ho4 Ho5. injection Hi as Hi0 Hi1 Hi2.
  retry_run. repeat split.
  - by count_events.
  - name_events. eexists; split; [reflexivity|done].
  - retry_side.
Qed.

(** Every driver call fails and the [j]-th reinitialization is the first
    to fail: the loop stops right there. *)
Lemma retry_init_failure (j : nat) s :
  (forall n, outcome n = false) ->
  (j < 3)%nat ->
  upcoming (card_init env) (n_init s) (S j) = replicate j true ++ [false] ->
  value (retryLoop env op (Z.to_nat MAXTRIES_SD) s) = false /\
  last (events (retryLoop env op (Z.to_nat MAXTRIES_SD) s)) = Some EvCardInit /\
  inits (events (retryLoop env op (Z.to_nat MAXTRIES_SD) s)) = S j /\
  blockOps (events (retryLoop env op (Z.to_nat MAXTRIES_SD) s)) = (3 + j)%nat.
Proof.
  intros Hfail Hj Hi.
  assert (Hf : forall s', outcome (ctr s') = false) by (intros; apply Hfail).
  change (Z.to_nat MAXTRIES_SD) with 5%nat.
  destruct j as [|[|[|j]]]; [| | |lia]; cbn in Hi.
  - injection Hi as Hi0.
    rewrite (retry_again 4 s), (retry_again 3), (retry_reinit_fail 2)
      by first [apply Hf | retry_side].
    cbn [value final events fst snd]. repeat split.
    + name_events; reflexivity.
    + by count_events.
    + by count_events.
  - injection Hi as Hi0 Hi1.
    rewrite (retry_again 4 s), (retry_again 3), (retry_reinit 2),
      (retry_reinit_fail 1) by first [apply Hf | retry_side].
    cbn [value final events fst snd]. repeat split.
    + name_events; reflexivity.
    + by count_events.
    + by count_events.
  - injection Hi as Hi0 Hi1 Hi2.
    rewrite (retry_again 4 s), (retry_again 3), (retry_reinit 2),
      (retry_reinit 1), (retry_reinit_fail 0) by first [apply Hf | retry_side].
    cbn [value final events fst snd]. repeat split.
    + name_events; reflexivity.
    + by count_events.
    + by count_events.
Qed.

End RetryLoop.

(** ** [readBlock] and [writeBlock] *)

Lemma n_read_sdInit env s : n_read (final (sdInit env s)) = n_read s.
Proof. rewrite sdInit_run; cbn. by destruct (card_init env (n_init s)). Qed.

Lemma n_write_sdInit env s : n_write (final (sdInit env s)) = n_write s.
Proof. rewrite sdInit_run; cbn. by destruct (card_init env (n_init s)). Qed.

Lemma cardRead_event env block s :
  exists e, events (cardRead env block s) = [e] /\ isBlockOp e = true.
Proof. by exists (EvCardRead block). Qed.

Lemma cardWrite_event env block s :
  exists e, events (cardWrite env block s) = [e] /\ isBlockOp e = true.
Proof. by exists (EvCardWrite block (dataBuf s)). Qed.

Lemma readBlock_blockOps_le env block s :
  (blockOps (events (readBlock env block s)) <= 6)%nat.
Proof.
  apply (retry_blockOps_le env (cardRead env block) (card_readBlock env) n_read);
    auto using cardRead_event.
Qed.

Lemma writeBlock_blockOps_le env block s :
  (blockOps (events (writeBlock env block s)) <= 6)%nat.
Proof.
  apply (retry_blockOps_le env (cardWrite env block) (card_writeBlock env) n_write);
    auto using cardWrite_event.
Qed.

Lemma readBlock_all_fail env block s :
  (forall n, card_readBlock env n = false) ->
  value (readBlock env block s) = false.
Proof.
  apply (retry_all_fail env (cardRead env block) (card_readBlock env) n_read);
    auto.
Qed.

Lemma writeBlock_all_fail env block s :
  (forall n, card_writeBlock env n = false) ->
  value (writeBlock env block s) = false.
Proof.
  apply (retry_all_fail env (cardWrite env block) (card_writeBlock env) n_write);
    auto.
Qed.

Lemma readBlock_all_fail_counts env block s :
  (forall n, card_readBlock env n = false) ->
  (forall n, card_init env n = true) ->
  blockOps (events (readBlock env block s)) = 6%nat /\
  inits (events (readBlock env block s)) = 3%nat.
Proof.
  apply (retry_all_fail_counts env (cardRead env block) (card_readBlock env) n_read);
    auto using cardRead_event.
Qed.

Lemma writeBlock_all_fail_counts env block s :
  (forall n, card_writeBlock env n = false) ->
  (forall n, card_init env n = true) ->
  blockOps (events (writeBlock env block s)) = 6%nat /\
  inits (events (writeBlock env block s)) = 3%nat.
Proof.
  apply (retry_all_fail_counts env (cardWrite env block) (card_writeBlock env) n_write);
    auto using cardWrite_event.
Qed.

Lemma readBlock_init_failure env block j s :
  (forall n, card_readBlock env n = false) ->
  (j < 3)%nat ->
  upcoming (card_init env) (n_init s) (S j) = replicate j true ++ [false] ->
  value (readBlock env block s) = false /\
  last (events (readBlock env block s)) = Some EvCardInit /\
  inits (events (readBlock env block s)) = S j /\
  blockOps (events (readBlock env block s)) = (3 + j)%nat.
Proof.
  apply (retry_init_failure env (cardRead env block) (card_readBlock env) n_read);
    auto using cardRead_event, n_read_sdInit.
Qed.

Lemma writeBlock_init_failure env block j s :
  (forall n, card_writeBlock env n = false) ->
  (j < 3)%nat ->
  upcoming (card_init env) (n_init s) (S j) = replicate j true ++ [false] ->
  value (writeBlock env block s) = false /\
  last (events (writeBlock env block s)) = Some EvCardInit /\
  inits (events (writeBlock env block s)) = S j /\
  blockOps (events (writeBlock env block s)) = (3 + j)%nat.
Proof.
  apply (retry_init_failure env (cardWrite env block) (card_writeBlock env) n_write);
    auto using cardWrite_event, n_write_sdInit.
Qed.

(** C3, as measured on the code: against a card that fails every
    [readBlock] and [writeBlock] call, [readBlock] and [writeBlock] call
    the driver at most 6 times, the first attempt plus the
    [MAXTRIES_SD] = 5 retries, and then report failure. *)
Theorem block_op_retry_bound env block s :
  (forall n, card_readBlock env n = false) ->
  (forall n, card_writeBlock env n = false) ->
  ((blockOps (events (readBlock env block s)) <= 1 + Z.to_nat MAXTRIES_SD)%nat /\
   value (readBlock env block s) = false) /\
  ((blockOps (events (writeBlock env block s)) <= 1 + Z.to_nat MAXTRIES_SD)%nat /\
   value (writeBlock env block s) = false).
Proof.
  intros Hr Hw. repeat split.
  - apply readBlock_blockOps_le.
  - by apply readBlock_all_fail.
  - apply writeBlock_blockOps_le.
  - by apply writeBlock_all_fail.
Qed.

Lemma block_op_retry_bound_witness :
  ((blockOps (events (readBlock deadCard 7 bootState)) <= 1 + Z.to_nat MAXTRIES_SD)%nat /\
   value (readBlock deadCard 7 bootState) = false) /\
  ((blockOps (events (writeBlock deadCard 7 bootState)) <= 1 + Z.to_nat MAXTRIES_SD)%nat /\
   value (writeBlock deadCard 7 bootState) = false).
Proof. apply block_op_retry_bound; intros n; reflexivity. Defined.

(** C3 as claimed fails: the card [deadCard] fails every call, and
    [readBlock] calls [card.readBlock] 6 times, not at most 5. *)
Lemma block_op_five_calls_exceeded :
  (forall n, card_readBlock deadCard n = false) /\
  (forall n, card_writeBlock deadCard n = false) /\
  ~ (blockOps (events (readBlock deadCard 7 bootState)) <= Z.to_nat MAXTRIES_SD)%nat.
Proof.
  split; [done|split; [done|]].
  vm_compute. lia.
Qed.

(** C4, as measured on the code: against a card that fails every block
    operation, [readBlock] and [writeBlock] call [sdInit] three times when
    reinitialization keeps succeeding (before each of their last three
    driver calls) and then report failure; and when a reinitialization
    fails ([j] ones succeeded before it), they return failure at once: that
    [card.init] is the last thing they do. *)
Theorem block_op_reinit env block s :
  (forall n, card_readBlock env n = false) ->
  (forall n, card_writeBlock env n = false) ->
  ((forall n, card_init env n = true) ->
   (inits (events (readBlock env block s)) = 3%nat /\
    value (readBlock env block s) = false) /\
   (inits (events (writeBlock env block s)) = 3%nat /\
    value (writeBlock env block s) = false)) /\
  (forall j, (j < 3)%nat ->
   upcoming (card_init env) (n_init s) (S j) = replicate j true ++ [false] ->
   (value (readBlock env block s) = false /\
    last (events (readBlock env block s)) = Some EvCardInit /\
    inits (events (readBlock env block s)) = S j /\
    blockOps (events (readBlock env block s)) = (3 + j)%nat) /\
   (value (writeBlock env block s) = false /\
    last (events (writeBlock env block s)) = Some EvCardInit /\
    inits (events (writeBlock env block s)) = S j /\
    blockOps (events (writeBlock env block s)) = (3 + j)%nat)).
Proof.
  intros Hr Hw. split.
  - intros Hi. repeat split.
    + by apply readBlock_all_fail_counts.
    + by apply readBlock_all_fail.
    + by apply writeBlock_all_fail_counts.
    + by apply writeBlock_all_fail.
  - intros j Hj Hi. split.
    + by apply readBlock_init_failure.
    + by apply writeBlock_init_failure.
Qed.

Lemma block_op_reinit_witness :
  ((inits (events (readBlock deadCard 7 bootState)) = 3%nat /\
    value (readBlock deadCard 7 bootState) = false) /\
   (inits (events (writeBlock deadCard 7 bootState)) = 3%nat /\
    value (writeBlock deadCard 7 bootState) = false)) /\
  ((value (readBlock dyingCard 7 bootState) = false /\
    last (events (readBlock dyingCard 7 bootState)) = Some EvCardInit /\
    inits (events (readBlock dyingCard 7 bootState)) = 2%nat /\
    blockOps (events (readBlock dyingCard 7 bootState)) = 4%nat) /\
   (value (writeBlock dyingCard 7 bootState) = false /\
    last (events (writeBlock dyingCard 7 bootState)) = Some EvCardInit /\
    inits (events (writeBlock dyingCard 7 bootState)) = 2%nat /\
    blockOps (events (writeBlock dyingCard 7 bootState)) = 4%nat)).
Proof.
  split.
  - apply (block_op_reinit deadCard 7 bootState); intros n; reflexivity.
  - apply (block_op_reinit dyingCard 7 bootState (fun _ => eq_refl)
             (fun _ => eq_refl)); [lia|reflexivity].
Defined.

(** C4 as claimed fails: [deadCard] fails every block operation and
    answers every [card.init], and [readBlock] calls [sdInit] three times,
    not once. *)
Lemma block_op_reinit_not_once :
  (forall n, card_readBlock deadCard n = false) /\
  (forall n, card_init deadCard n = true) /\
  inits (events (readBlock deadCard 7 bootState)) <> 1%nat.
Proof.
  split; [done|split; [done|]].
  vm_compute. lia.
Qed.

Lemma readBlock_late_success env block s :
  upcoming (card_readBlock env) (n_read s) 6 = [false; false; false; false; false; true] ->
  upcoming (card_init env) (n_init s) 3 = [true; true; true] ->
  value (readBlock env block s) = false /\
  blockOps (events (readBlock env block s)) = 6%nat /\
  (exists e, last (events (readBlock env block s)) = Some e /\ isBlockOp e = true) /\
  n_read (final (readBlock env block s)) = (6 + n_read s)%nat.
Proof.
  apply (retry_late_success env (cardRead env block) (card_readBlock env) n_read);
    auto using cardRead_event, n_read_sdInit.
Qed.

Lemma writeBlock_late_success env block s :
  upcoming (card_writeBlock env) (n_write s) 6 = [false; false; false; false; false; true] ->
  upcoming (card_init env) (n_init s) 3 = [true; true; true] ->
  value (writeBlock env block s) = false /\
  blockOps (events (writeBlock env block s)) = 6%nat /\
  (exists e, last (events (writeBlock env block s)) = Some e /\ isBlockOp e = true) /\
  n_write (final (writeBlock env block s)) = (6 + n_write s)%nat.
Proof.
  apply (retry_late_success env (cardWrite env block) (card_writeBlock env) n_write);
    auto using cardWrite_event, n_write_sdInit.
Qed.

(** C9: when the next five driver calls fail and the sixth succeeds,
    with every reinitialization succeeding, [readBlock] and [writeBlock]
    make that sixth call (it is the last thing they do, and the driver has
    been called 6 times) and still report failure. *)
Theorem block_op_late_success env block s :
  upcoming (card_init env) (n_init s) 3 = [true; true; true] ->
  (upcoming (card_readBlock env) (n_read s) 6
     = [false; false; false; false; false; true] ->
   value (readBlock env block s) = false /\
   blockOps (events (readBlock env block s)) = 6%nat /\
   (exists e, last (events (readBlock env block s)) = Some e /\ isBlockOp e = true) /\
   n_read (final (readBlock env block s)) = (6 + n_read s)%nat) /\
  (upcoming (card_writeBlock env) (n_write s) 6
     = [false; false; false; false; false; true] ->
   value (writeBlock env block s) = false /\
   blockOps (events (writeBlock env block s)) = 6%nat /\
   (exists e, last (events (writeBlock env block s)) = Some e /\ isBlockOp e = true) /\
   n_write (final (writeBlock env block s)) = (6 + n_write s)%nat).
Proof.
  intros Hi; split; intros Ho.
  - by apply readBlock_late_success.
  - by apply writeBlock_late_success.
Qed.

Lemma block_op_late_success_witness :
  (value (readBlock slowCard 7 bootState) = false /\
   blockOps (events (readBlock slowCard 7 bootState)) = 6%nat /\
   (exists e, last (events (readBlock slowCard 7 bootState)) = Some e /\
              isBlockOp e = true) /\
   n_read (final (readBlock slowCard 7 bootState)) = 6%nat) /\
  (value (writeBlock slowCard 7 bootState) = false /\
   blockOps (events (writeBlock slowCard 7 bootState)) = 6%nat /\
   (exists e, last (events (writeBlock slowCard 7 bootState)) = Some e /\
              isBlockOp e = true) /\
   n_write (final (writeBlock slowCard 7 bootState)) = 6%nat).
Proof.
  destruct (block_op_late_success slowCard 7 bootState eq_refl) as [Hr Hw].
  split; [exact (Hr eq_refl)|exact (Hw eq_refl)].
Defined.

(** The runs behind the three results above, in full. *)
Example deadCard_read :
  events (readBlock deadCard 7 bootState) =
  [EvCardRead 7; EvDelay 10; EvFeed;
   EvCardRead 7; EvDelay 10; EvFeed;
   EvCardRead 7; EvDelay 10; EvFeed; EvCardInit;
   EvCardRead 7; EvDelay 10; EvFeed; EvCardInit;
   EvCardRead 7; EvDelay 10; EvFeed; EvCardInit;
   EvCardRead 7].
Proof. vm_compute; reflexivity. Qed.

Example dyingCard_read :
  events (readBlock dyingCard 7 bootState) =
  [EvCardRead 7; EvDelay 10; EvFeed;
   EvCardRead 7; EvDelay 10; EvFeed;
   EvCardRead 7; EvDelay 10; EvFeed; EvCardInit;
   EvCardRead 7; EvDelay 10; EvFeed; EvCardInit] /\
  value (readBlock dyingCard 7 bootState) = false.
Proof. split; vm_compute; reflexivity. Qed.

Example slowCard_read :
  events (readBlock slowCard 7 bootState) = events (readBlock deadCard 7 bootState) /\
  card_readBlock slowCard 5 = true /\
  value (readBlock slowCard 7 bootState) = false.
Proof. split; [|split]; vm_compute; reflexivity. Qed.

(** ** The ready check of [loop] *)

Lemma bind_gets {A B} (f : State -> A) (k : A -> M B) s :
  (gets f ≫= k) s = k (f s) s.
Proof.
  unfold mbind, M_bind, gets. by destruct (k (f s) s) as [[v s'] e].
Qed.

Lemma bind_modify {B} (f : State -> State) (k : unit -> M B) s :
  (modify f ≫= k) s = k tt (f s).
Proof.
  unfold mbind, M_bind, modify. by destruct (k tt (f s)) as [[v s'] e].
Qed.

Lemma bind_emit {B} (e : event) (k : unit -> M B) s :
  (emit e ≫= k) s = (value (k tt s), final (k tt s), e :: events (k tt s)).
Proof.
  unfold mbind, M_bind, emit. by destruct (k tt s) as [[v s'] e'].
Qed.

Lemma loop_ready env b s :
  sdReady s = true ->
  loop env b s = execute env (atDispatch env b s).
Proof.
  intros Hr. unfold loop, waitCommand, atDispatch.
  rewrite bind_modify, bind_gets; cbn [sdReady set_cmdBuf].
  by rewrite Hr.
Qed.

Lemma loop_reinit env b s :
  sdReady s = false ->
  card_init env (n_init s) = true ->
  loop env b s =
  (value (execute env (atDispatch env b s)),
   final (execute env (atDispatch env b s)),
   EvCardInit :: events (execute env (atDispatch env b s))).
Proof.
  intros Hr Hi. unfold loop, waitCommand, atDispatch.
  rewrite bind_modify, bind_gets; cbn [sdReady set_cmdBuf].
  rewrite Hr; cbn [negb].
  rewrite run_bind, sdInit_run;
    cbn [value final events fst snd n_init set_cmdBuf].
  rewrite Hi; reflexivity.
Qed.

Lemma loop_not_ready env b s :
  sdReady s = false ->
  card_init env (n_init s) = false ->
  events (loop env b s) = [EvCardInit; EvStatus 2].
Proof.
  intros Hr Hi. unfold loop, waitCommand.
  rewrite bind_modify, bind_gets; cbn [sdReady set_cmdBuf].
  rewrite Hr; cbn [negb].
  rewrite run_bind, sdInit_run;
    cbn [value final events fst snd n_init set_cmdBuf].
  by rewrite Hi.
Qed.

Lemma loop_usable_actions env b s :
  cardUsable env s = true ->
  actions (events (loop env b s)) = actions (events (execute env (atDispatch env b s))).
Proof.
  unfold cardUsable; intros Hg.
  destruct (sdReady s) eqn:Hr.
  - by rewrite loop_ready.
  - cbn in Hg. by rewrite loop_reinit.
Qed.

Lemma atDispatch_cmdBuf env b s : cmdBuf (atDispatch env b s) = frame b.
Proof.
  unfold atDispatch. destruct (sdReady s); [done|].
  rewrite sdInit_run; cbn. by destruct (card_init env (n_init s)).
Qed.

Lemma atDispatch_dataBuf env b s : dataBuf (atDispatch env b s) = dataBuf s.
Proof.
  unfold atDispatch. destruct (sdReady s); [done|].
  rewrite sdInit_run; cbn. by destruct (card_init env (n_init s)).
Qed.

Lemma atDispatch_n_read env b s : n_read (atDispatch env b s) = n_read s.
Proof.
  unfold atDispatch. destruct (sdReady s); [done|]. by rewrite n_read_sdInit.
Qed.

Lemma atDispatch_n_write env b s : n_write (atDispatch env b s) = n_write s.
Proof.
  unfold atDispatch. destruct (sdReady s); [done|]. by rewrite n_write_sdInit.
Qed.

Lemma atDispatch_sdBlocks env b s :
  sdBlocks (atDispatch env b s) = capacityAtDispatch env s.
Proof.
  unfold atDispatch, capacityAtDispatch. destruct (sdReady s); [done|].
  rewrite sdInit_run; cbn. by destruct (card_init env (n_init s)).
Qed.

(** C6: if the card is not ready when a command arrives and [sdInit]
    fails, the command cycle consists of that [card.init] followed by
    status 2, whatever the frame: no block operation, no DMA transfer. *)
Theorem loop_not_ready_fails env b s :
  sdReady s = false ->
  card_init env (n_init s) = false ->
  events (loop env b s) = [EvCardInit; EvStatus 2] /\
  actions (events (loop env b s)) = [AStatus 2] /\
  forall b', events (loop env b' s) = events (loop env b s).
Proof.
  intros Hr Hi. rewrite !loop_not_ready by done.
  split; [done|split; [done|]].
  intros b'. by apply loop_not_ready.
Qed.

Lemma loop_not_ready_fails_witness :
  events (loop noCard [0x0800; 0; 0; 0x0A00; 0x0200; 0] bootState)
    = [EvCardInit; EvStatus 2] /\
  actions (events (loop noCard [0x0800; 0; 0; 0x0A00; 0x0200; 0] bootState))
    = [AStatus 2] /\
  forall b', events (loop noCard b' bootState)
             = events (loop noCard [0x0800; 0; 0; 0x0A00; 0x0200; 0] bootState).
Proof. apply loop_not_ready_fails; reflexivity. Defined.

(** ** Frames and block ranges *)

Lemma lor_shiftl_add hi lo k :
  0 <= k -> 0 <= lo < 2 ^ k -> Z.lor (hi ≪ k) lo = hi * 2 ^ k + lo.
Proof.
  intros Hk Hlo.
  rewrite <- Z.shiftl_mul_pow2 by done.
  symmetry; apply Z.add_nocarry_lor.
  apply Z.bits_inj'; intros n Hn.
  rewrite Z.land_spec, Z.bits_0.
  destruct (Z.lt_ge_cases n k) as [Hlt|Hge].
  - by rewrite Z.shiftl_spec_low.
  - rewrite <- (Z.mod_small lo (2 ^ k)) by done.
    rewrite Z.mod_pow2_bits_high by lia.
    apply andb_false_r.
Qed.

Lemma u8_range x : 0 <= u8 x < 256.
Proof. unfold u8. by apply Z.mod_pos_bound. Qed.

Lemma frame_byte b i : 0 <= nth i (frame b) 0 < 256.
Proof.
  destruct i as [|[|[|[|[|[|i]]]]]]; cbn [nth frame]; try apply u8_range.
  - change 31 with (Z.ones 5). rewrite Z.land_ones by done.
    pose proof (Z.mod_pos_bound (nth 0 b 0 ≫ 8) (2 ^ 5)). lia.
  - destruct i; lia.
Qed.

(** The block number is the 24-bit big-endian value of bytes 1 to 3. *)
Lemma blockNumber_frame b :
  blockNumber (frame b) =
  nth 1 (frame b) 0 * 65536 + nth 2 (frame b) 0 * 256 + nth 3 (frame b) 0.
Proof.
  pose proof (frame_byte b 1). pose proof (frame_byte b 2).
  pose proof (frame_byte b 3).
  unfold blockNumber.
  change 16 with (8 + 8).
  rewrite <- Z.shiftl_shiftl, <- Z.shiftl_lor by done.
  rewrite !lor_shiftl_add by lia. lia.
Qed.

Lemma blockNumber_range b : 0 <= blockNumber (frame b) < 2 ^ 24.
Proof.
  pose proof (frame_byte b 1). pose proof (frame_byte b 2).
  pose proof (frame_byte b 3).
  rewrite blockNumber_frame. lia.
Qed.

Lemma outOfRange_beyond b blocks :
  blocks < blockNumber (frame b) + nth 4 (frame b) 0 ->
  outOfRange (blockNumber (frame b)) (nth 4 (frame b) 0) blocks = true.
Proof.
  intros H. pose proof (blockNumber_range b). pose proof (frame_byte b 4).
  unfold outOfRange, u32. apply Z.leb_le.
  destruct (decide (blockNumber (frame b) + nth 4 (frame b) 0 = 0)) as [Hz|Hz].
  - replace (blockNumber (frame b) + nth 4 (frame b) 0 - 1) with (-1) by lia.
    change ((-1) `mod` 2 ^ 32) with (2 ^ 32 - 1). lia.
  - rewrite Z.mod_small by lia. lia.
Qed.

Lemma outOfRange_within b blocks :
  1 <= blockNumber (frame b) + nth 4 (frame b) 0 <= blocks ->
  outOfRange (blockNumber (frame b)) (nth 4 (frame b) 0) blocks = false.
Proof.
  intros H. pose proof (blockNumber_range b). pose proof (frame_byte b 4).
  unfold outOfRange, u32. apply Z.leb_gt.
  rewrite Z.mod_small by lia. lia.
Qed.

(** Block 0 with count 0: [block + cmdBuf[4] - 1] is -1, which the
    comparison reads as [0xFFFFFFFF]. *)
Lemma outOfRange_empty_at_0 blocks :
  blocks < 2 ^ 32 -> outOfRange 0 0 blocks = true.
Proof.
  intros H. unfold outOfRange, u32.
  change ((0 + 0 - 1) `mod` 2 ^ 32) with (2 ^ 32 - 1).
  apply Z.leb_le. lia.
Qed.

(** ** Dispatching on the opcode *)

Lemma execute_read env s :
  nth 0 (cmdBuf s) 0 = 0x08 -> execute env s = readCommand env s.
Proof. intros H. unfold execute, cmd. rewrite bind_gets. by rewrite H. Qed.

Lemma execute_write env s :
  nth 0 (cmdBuf s) 0 = 0x0A -> execute env s = writeCommand env s.
Proof. intros H. unfold execute, cmd. rewrite bind_gets. by rewrite H. Qed.

Lemma execute_modeSense env s :
  nth 0 (cmdBuf s) 0 = 0x1A -> execute env s = modeSense s.
Proof. intros H. unfold execute, cmd. rewrite bind_gets. by rewrite H. Qed.

Lemma readCommand_beyond env s :
  outOfRange (blockNumber (cmdBuf s)) (nth 4 (cmdBuf s) 0) (sdBlocks s) = true ->
  events (readCommand env s) = [EvStatus 2].
Proof. intros H. unfold readCommand. rewrite !bind_gets. by rewrite H. Qed.

Lemma writeCommand_beyond env s :
  outOfRange (blockNumber (cmdBuf s)) (nth 4 (cmdBuf s) 0) (sdBlocks s) = true ->
  events (writeCommand env s) = [EvStatus 2].
Proof. intros H. unfold writeCommand. rewrite !bind_gets. by rewrite H. Qed.

(** C5: a Read-block or Write-block command whose start index plus
    count exceeds the capacity on record gets status 2, and the cycle
    contains no block operation and no DMA transfer. *)
Theorem range_error env b s :
  nth 0 (frame b) 0 = 0x08 \/ nth 0 (frame b) 0 = 0x0A ->
  blockNumber (frame b) + nth 4 (frame b) 0 > capacityAtDispatch env s ->
  actions (events (loop env b s)) = [AStatus 2] /\
  blockOps (events (loop env b s)) = 0%nat.
Proof.
  intros Hop Hbeyond.
  destruct (cardUsable env s) eqn:Hg; unfold cardUsable in Hg.
  - assert (He : events (execute env (atDispatch env b s)) = [EvStatus 2]).
    { destruct Hop as [Hop|Hop].
      - rewrite execute_read by (by rewrite atDispatch_cmdBuf).
        apply readCommand_beyond.
        rewrite atDispatch_cmdBuf, atDispatch_sdBlocks.
        apply outOfRange_beyond. lia.
      - rewrite execute_write by (by rewrite atDispatch_cmdBuf).
        apply writeCommand_beyond.
        rewrite atDispatch_cmdBuf, atDispatch_sdBlocks.
        apply outOfRange_beyond. lia. }
    destruct (sdReady s) eqn:Hr.
    + rewrite loop_ready by done. by rewrite He.
    + cbn in Hg. rewrite loop_reinit by done. cbn [events snd]. by rewrite He.
  - apply orb_false_elim in Hg as [Hr Hi].
    by rewrite loop_not_ready.
Qed.

(** Read block 99, count 5, on a ready card of 100 blocks.  The data
    lines are bits 8 to 15 of a port sample. *)
Lemma range_error_witness :
  actions (events (loop goodCard [0x0800; 0; 0; 0x6300; 0x0500; 0] (readyState 100)))
    = [AStatus 2] /\
  blockOps (events (loop goodCard [0x0800; 0; 0; 0x6300; 0x0500; 0] (readyState 100)))
    = 0%nat.
Proof.
  apply range_error; [left; reflexivity|vm_compute; reflexivity].
Defined.

(** ** Mode sense *)

Lemma loop_usable_events env b s :
  cardUsable env s = true ->
  events (loop env b s) =
  (if sdReady s then [] else [EvCardInit]) ++
  events (execute env (atDispatch env b s)).
Proof.
  unfold cardUsable; intros Hg.
  destruct (sdReady s) eqn:Hr.
  - by rewrite loop_ready.
  - cbn in Hg. by rewrite loop_reinit.
Qed.

Lemma modeSense_other_page s :
  nth 2 (cmdBuf s) 0 <> 0x00 ->
  nth 2 (cmdBuf s) 0 <> 0x04 ->
  events (modeSense s) = [EvStatus 0].
Proof.
  intros H0 H4. unfold modeSense, cmd. rewrite bind_gets.
  destruct (nth 2 (cmdBuf s) 0) as [|p|p]; [done| |done].
  repeat match goal with
         | |- context [match ?x with _ => _ end] => destruct x
         end; done.
Qed.

(** C10, as measured on the code: a Mode-sense command whose sub-page
    byte is neither 0 nor 4, arriving when the card is ready or can be
    initialized, gets status 0 with no DMA transfer and no block
    operation. *)
Theorem modeSense_unknown_page env b s :
  cardUsable env s = true ->
  nth 0 (frame b) 0 = 0x1A ->
  nth 2 (frame b) 0 <> 0x00 ->
  nth 2 (frame b) 0 <> 0x04 ->
  actions (events (loop env b s)) = [AStatus 0].
Proof.
  intros Hg Hop H0 H4.
  rewrite loop_usable_actions by done.
  rewrite execute_modeSense by (by rewrite atDispatch_cmdBuf).
  rewrite modeSense_other_page by (by rewrite atDispatch_cmdBuf).
  reflexivity.
Qed.

Lemma modeSense_unknown_page_witness :
  actions (events (loop goodCard [0x1A00; 0; 0x0700; 0; 0; 0] bootState))
    = [AStatus 0].
Proof. by apply modeSense_unknown_page. Defined.

(** C10 as claimed fails: with no card, a Mode-sense command for
    sub-page 7 gets status 2, not 0. *)
Lemma modeSense_unknown_page_no_card :
  nth 0 (frame [0x1A00; 0; 0x0700; 0; 0; 0]) 0 = 0x1A /\
  nth 2 (frame [0x1A00; 0; 0x0700; 0; 0; 0]) 0 = 7 /\
  statuses (events (loop noCard [0x1A00; 0; 0x0700; 0; 0; 0] bootState)) = [2].
Proof. split; [|split]; vm_compute; reflexivity. Qed.

(** The zero-fill loop [for(uint8_t b = lo; b < lo + n; ++b) dataBuf[b] = 0]. *)

Lemma bind_poke {B} i v (k : unit -> M B) s :
  (poke i v ≫= k) s = k tt (set_dataBuf (<[i := u8 v]> (dataBuf s)) s).
Proof. unfold poke. by rewrite bind_modify. Qed.

Lemma forBytes_poke_S n b v s :
  forBytes (S n) b (fun i => poke i v) s =
  forBytes n (S b) (fun i => poke i v)
    (set_dataBuf (<[b := u8 v]> (dataBuf s)) s).
Proof. cbn [forBytes]. by rewrite bind_poke. Qed.

Lemma forBytes_poke_events n b v s :
  events (forBytes n b (fun i => poke i v) s) = [].
Proof.
  revert b s; induction n as [|n IH]; intros b s; [done|].
  by rewrite forBytes_poke_S.
Qed.

Lemma forBytes_poke_length n b v s :
  length (dataBuf (final (forBytes n b (fun i => poke i v) s))) = length (dataBuf s).
Proof.
  revert b s; induction n as [|n IH]; intros b s; [done|].
  rewrite forBytes_poke_S, IH. cbn. apply length_insert.
Qed.

Lemma forBytes_poke_below n b v s (i : nat) :
  (i < b)%nat ->
  dataBuf (final (forBytes n b (fun i => poke i v) s)) !! i = dataBuf s !! i.
Proof.
  revert b s; induction n as [|n IH]; intros b s Hi; [done|].
  rewrite forBytes_poke_S, IH by lia. cbn.
  apply list_lookup_insert_ne. lia.
Qed.

Lemma forBytes_poke_within n b v s (i : nat) :
  (b <= i < b + n)%nat ->
  (i < length (dataBuf s))%nat ->
  dataBuf (final (forBytes n b (fun i => poke i v) s)) !! i = Some (u8 v).
Proof.
  revert b s; induction n as [|n IH]; intros b s Hi Hlen; [lia|].
  rewrite forBytes_poke_S.
  destruct (decide (i = b)) as [->|Hne].
  - rewrite forBytes_poke_below by lia. cbn.
    by apply list_lookup_insert_eq.
  - apply IH; [lia|]. cbn. by rewrite length_insert.
Qed.

Lemma forBytes_zero_take n s :
  (n <= length (dataBuf s))%nat ->
  take n (dataBuf (final (forBytes n 0 (fun i => poke i 0) s))) = replicate n 0.
Proof.
  intros Hn. apply list_eq; intros i.
  rewrite lookup_take.
  destruct (decide (i < n)%nat) as [Hi|Hi].
  - rewrite forBytes_poke_within by lia.
    by rewrite lookup_replicate_2.
  - symmetry. apply lookup_replicate_None. lia.
Qed.

Lemma commandSuccess_events s : events (commandSuccess s) = [EvStatus 0].
Proof. reflexivity. Qed.

Lemma sendDma_events count s :
  events (sendDma count s) = [EvSendDma (take (Z.to_nat count) (dataBuf s))].
Proof. reflexivity. Qed.

Lemma dataBuf_set_dataBuf d s : dataBuf (set_dataBuf d s) = d.
Proof. reflexivity. Qed.

Lemma modeSense_page4 s :
  nth 2 (cmdBuf s) 0 = 0x04 ->
  (24 <= length (dataBuf s))%nat ->
  events (modeSense s) = [EvSendDma (replicate 24 0); EvStatus 0].
Proof.
  intros Hsub Hlen. unfold modeSense, cmd. rewrite bind_gets, Hsub.
  rewrite events_bind, commandSuccess_events.
  rewrite !bind_poke, bind_gets, !bind_poke.
  rewrite events_bind, forBytes_poke_events, sendDma_events.
  change (Z.to_nat 24) with 24%nat.
  rewrite forBytes_zero_take; [done|].
  by repeat first [rewrite dataBuf_set_dataBuf | rewrite length_insert].
Qed.

(** C2, as measured on the code: the zero-fill loop of sub-page 4 runs
    after the page has been written, so the 24 bytes sent are all zero. *)
Theorem modeSense_page4_is_blank env b s :
  cardUsable env s = true ->
  nth 0 (frame b) 0 = 0x1A ->
  nth 2 (frame b) 0 = 0x04 ->
  (24 <= length (dataBuf s))%nat ->
  events (loop env b s) =
  (if sdReady s then [] else [EvCardInit]) ++
  [EvSendDma (replicate 24 0); EvStatus 0].
Proof.
  intros Hg Hop Hsub Hlen.
  rewrite loop_usable_events by done. f_equal.
  rewrite execute_modeSense by (by rewrite atDispatch_cmdBuf).
  apply modeSense_page4; [by rewrite atDispatch_cmdBuf|].
  by rewrite atDispatch_dataBuf.
Qed.

Lemma modeSense_page4_is_blank_witness :
  events (loop goodCard [0x1A00; 0; 0x0400; 0; 0; 0]
            (mkState [] (replicate 512 255) 100 true 1 0 0 0)) =
  [EvSendDma (replicate 24 0); EvStatus 0].
Proof.
  apply (modeSense_page4_is_blank goodCard [0x1A00; 0; 0x0400; 0; 0; 0]
           (mkState [] (replicate 512 255) 100 true 1 0 0 0));
    [reflexivity|reflexivity|reflexivity|vm_compute; lia].
Defined.

(** ** Block transfers *)

Lemma store_bytes_length src dst : length (store_bytes src dst) = length dst.
Proof.
  unfold store_bytes. rewrite length_take, length_app, length_drop. lia.
Qed.

Lemma readBlock_first_try env block s :
  card_readBlock env (n_read s) = true ->
  readBlock env block s =
  (true, final (cardRead env block s), [EvCardRead block]).
Proof.
  intros H. unfold readBlock.
  by rewrite (retry_success env (cardRead env block) (card_readBlock env) n_read).
Qed.

Lemma writeBlock_first_try env block s :
  card_writeBlock env (n_write s) = true ->
  writeBlock env block s =
  (true, final (cardWrite env block s), [EvCardWrite block (dataBuf s)]).
Proof.
  intros H. unfold writeBlock.
  by rewrite (retry_success env (cardWrite env block) (card_writeBlock env) n_write).
Qed.

Lemma actions_cons e l :
  actions (e :: l) =
  match actionOf e with Some a => a :: actions l | None => actions l end.
Proof. reflexivity. Qed.



Lemma readCommand_within env s :
  outOfRange (blockNumber (cmdBuf s)) (nth 4 (cmdBuf s) 0) (sdBlocks s) = false ->
  readCommand env s =
  readLoop env (Z.to_nat (nth 4 (cmdBuf s) 0)) (blockNumber (cmdBuf s)) s.
Proof. intros H. unfold readCommand. rewrite !bind_gets. by rewrite H. Qed.

Lemma writeCommand_within env s :
  outOfRange (blockNumber (cmdBuf s)) (nth 4 (cmdBuf s) 0) (sdBlocks s) = false ->
  writeCommand env s =
  writeLoop env (Z.to_nat (nth 4 (cmdBuf s) 0)) (blockNumber (cmdBuf s)) s.
Proof. intros H. unfold writeCommand. rewrite !bind_gets. by rewrite H. Qed.




(** ** Command reception, sample by sample *)

Lemma addressed_split b :
  addressed b = true <->
  Z.land b (Z.lor A1_MASK CS_MASK) = 0 /\ b ≫ (8 + 5) = ACSI_ID.
Proof.
  unfold addressed. rewrite andb_true_iff, !Z.eqb_eq. tauto.
Qed.

Lemma awaitAddress_skip pre port :
  Forall (fun x => addressed x = false) pre ->
  awaitAddress (pre ++ port) =
  match awaitAddress port with
  | Some (b, rest, feeds) =>
      Some (b, rest, (length (List.filter strobeHigh pre) + feeds)%nat)
  | None => None
  end.
Proof.
  induction 1 as [|x pre Hx Hpre IH]; cbn [app awaitAddress List.filter length].
  - by destruct (awaitAddress port) as [[[b rest] feeds]|].
  - unfold addressed in Hx. unfold strobeHigh at 1.
    destruct (Z.land x (Z.lor A1_MASK CS_MASK) =? 0); cbn [negb] in *.
    + cbn [andb] in Hx. rewrite Hx. exact IH.
    + rewrite IH. by destruct (awaitAddress port) as [[[b rest] feeds]|].
Qed.

Lemma awaitAddress_found b rest :
  addressed b = true -> awaitAddress (b :: rest) = Some (b, rest, 0%nat).
Proof.
  intros [H1 H2]%addressed_split. cbn [awaitAddress].
  by rewrite H1, H2.
Qed.

Lemma awaitAddress_inv port b rest feeds :
  awaitAddress port = Some (b, rest, feeds) ->
  exists pre,
    port = pre ++ b :: rest /\
    Forall (fun x => addressed x = false) pre /\
    addressed b = true /\
    feeds = length (List.filter strobeHigh pre).
Proof.
  revert feeds; induction port as [|x port IH]; intros feeds; [done|].
  cbn [awaitAddress].
  destruct (Z.land x (Z.lor A1_MASK CS_MASK) =? 0) eqn:Hlines.
  - destruct (x ≫ (8 + 5) =? ACSI_ID) eqn:Hid.
    + intros [= -> -> <-]. exists []. repeat split; [done|].
      unfold addressed. by rewrite Hlines, Hid.
    + intros (pre & -> & Hpre & Hb & ->)%IH.
      exists (x :: pre). repeat split; [|done|].
      * constructor; [|done]. unfold addressed. by rewrite Hlines, Hid.
      * cbn [List.filter]. unfold strobeHigh at 2. by rewrite Hlines.
  - destruct (awaitAddress port) as [[[b' rest'] feeds']|] eqn:Hrec; [|done].
    intros [= -> -> <-].
    destruct (IH feeds' eq_refl) as (pre & -> & Hpre & Hb & ->).
    exists (x :: pre). repeat split; [|done|].
    + constructor; [|done]. unfold addressed. by rewrite Hlines.
    + cbn [List.filter]. unfold strobeHigh at 2. by rewrite Hlines.
Qed.

(** X1: the first loop of [waitCommand] ends on the first sample that
    has A1 and CS low and carries this device's ID, whatever came before
    (commands for other devices included), and it has fed the watchdog
    once for every earlier sample with A1 or CS high. *)
Theorem awaitAddress_first port b rest feeds :
  awaitAddress port = Some (b, rest, feeds) <->
  exists pre,
    port = pre ++ b :: rest /\
    Forall (fun x => addressed x = false) pre /\
    addressed b = true /\
    feeds = length (List.filter strobeHigh pre).
Proof.
  split; [apply awaitAddress_inv|].
  intros (pre & -> & Hpre & Hb & ->).
  rewrite awaitAddress_skip, awaitAddress_found by done.
  by rewrite Nat.add_0_r.
Qed.

Lemma awaitAddress_none port :
  Forall (fun x => addressed x = false) port -> awaitAddress port = None.
Proof.
  intros H. rewrite <- (app_nil_r port). by rewrite awaitAddress_skip.
Qed.

(** X2: when no sample is addressed to this device, no command is
    latched, however long the sample stream. *)
Theorem latchCommand_not_addressed port :
  Forall (fun x => addressed x = false) port -> latchCommand port = None.
Proof.
  intros H. unfold latchCommand. by rewrite awaitAddress_none.
Qed.

(** A command for device 3 (three samples, CS high between the bytes)
    is not latched by device 0. *)
Lemma latchCommand_not_addressed_witness :
  latchCommand [0xFFC0; 0x6800; 0xFF80; 0x0180] = None.
Proof.
  apply latchCommand_not_addressed. repeat constructor.
Defined.

Lemma awaitByte_inv port b rest :
  awaitByte port = Some (b, rest) ->
  exists pre, port = pre ++ b :: rest /\ Z.land b CS_MASK = 0.
Proof.
  induction port as [|x port IH]; [done|]. cbn [awaitByte].
  destruct (Z.land x CS_MASK =? 0) eqn:Hcs.
  - intros [= -> ->]. exists []. split; [done|]. by apply Z.eqb_eq.
  - intros (pre & -> & Hb)%IH. by exists (x :: pre).
Qed.

Lemma awaitBytes_inv n port bs rest :
  awaitBytes n port = Some (bs, rest) ->
  length bs = n /\ Forall (fun b => Z.land b CS_MASK = 0) bs.
Proof.
  revert port bs; induction n as [|n IH]; intros port bs; cbn [awaitBytes].
  - by intros [= <- <-].
  - destruct (awaitByte port) as [[b rest1]|] eqn:Hb; [|done].
    destruct (awaitBytes n rest1) as [[bs' rest2]|] eqn:Hbs; [|done].
    intros [= <- <-].
    apply awaitByte_inv in Hb as (pre & -> & Hcs).
    apply IH in Hbs as (Hlen & Hall).
    split; [by cbn; rewrite Hlen|by constructor].
Qed.

Lemma awaitBytes_Forall (P : Z -> Prop) n port bs rest :
  Forall P port ->
  awaitBytes n port = Some (bs, rest) ->
  Forall P bs /\ Forall P rest.
Proof.
  revert port bs; induction n as [|n IH]; intros port bs HP; cbn [awaitBytes].
  - by intros [= <- <-].
  - destruct (awaitByte port) as [[b rest1]|] eqn:Hb; [|done].
    destruct (awaitBytes n rest1) as [[bs' rest2]|] eqn:Hbs; [|done].
    intros [= <- <-].
    apply awaitByte_inv in Hb as (pre & -> & Hcs).
    apply Forall_app in HP as [_ HP]. apply Forall_cons in HP as [Hb HP].
    destruct (IH _ _ HP Hbs) as [H1 H2].
    split; [by constructor|done].
Qed.

(** On this port the data lines are bits 8 to 15: a sample is below
    [2 ^ 16]. *)
Lemma frame_data_lines b0 b1 b2 b3 b4 b5 :
  Forall (fun x => 0 <= x < 2 ^ 16) [b0; b1; b2; b3; b4; b5] ->
  b0 ≫ (8 + 5) = ACSI_ID ->
  frame [b0; b1; b2; b3; b4; b5] = (fun x => x ≫ 8) <$> [b0; b1; b2; b3; b4; b5].
Proof.
  intros Hr Hid.
  assert (Hbyte : forall x, 0 <= x < 2 ^ 16 -> u8 (x ≫ 8) = x ≫ 8).
  { intros x Hx. unfold u8. apply Z.mod_small.
    rewrite Z.shiftr_div_pow2 by done.
    split; [apply Z.div_pos; lia|apply Z.div_lt_upper_bound; lia]. }
  repeat match goal with
         | H : Forall _ (_ :: _) |- _ => apply Forall_cons in H as [? H]
         end.
  unfold frame; cbn [nth fmap list_fmap].
  rewrite !Hbyte by done. f_equal.
  change 31 with (Z.ones 5). rewrite Z.land_ones by done.
  apply Z.mod_small.
  unfold ACSI_ID in Hid.
  rewrite Z.shiftr_div_pow2 in Hid |- * by done.
  split; [apply Z.div_pos; lia|].
  apply Z.div_lt_upper_bound; [lia|].
  assert (b0 < 2 ^ (8 + 5)); [|lia].
  apply Z.nle_gt; intros Hge.
  pose proof (Z.div_le_mono _ _ (2 ^ (8 + 5)) ltac:(lia) Hge) as Hd.
  rewrite Z.div_same in Hd by lia. lia.
Qed.

(** X3: the six samples [waitCommand] latches (16-bit port values)
    all have CS low, and the frame it stores in [cmdBuf] is their data
    lines, bits 8 to 15: this device's ID being 0, masking the opcode
    byte removes nothing. *)
Theorem latchCommand_frame port latched rest feeds :
  Forall (fun x => 0 <= x < 2 ^ 16) port ->
  latchCommand port = Some (latched, rest, feeds) ->
  length latched = 6%nat /\
  Forall (fun b => Z.land b CS_MASK = 0) latched /\
  frame latched = (fun x => x ≫ 8) <$> latched.
Proof.
  intros Hport. unfold latchCommand.
  destruct (awaitAddress port) as [[[b0 rest0] feeds0]|] eqn:Haddr; [|done].
  destruct (awaitBytes 5 rest0) as [[bs rest1]|] eqn:Hbytes; [|done].
  intros [= <- <- <-].
  apply awaitAddress_inv in Haddr as (pre & -> & _ & [Hlines Hid]%addressed_split & _).
  apply Forall_app in Hport as [_ Hport].
  apply Forall_cons in Hport as [Hb0 Hport].
  destruct (awaitBytes_inv _ _ _ _ Hbytes) as [Hlen Hcs].
  destruct (awaitBytes_Forall _ _ _ _ _ Hport Hbytes) as [Hbs _].
  split; [by cbn; rewrite Hlen|]. split.
  - constructor; [|done].
    apply Z.bits_inj'; intros n Hn. rewrite Z.bits_0.
    apply (f_equal (fun x => Z.testbit x n)) in Hlines.
    rewrite Z.land_spec, Z.lor_spec, Z.bits_0 in Hlines.
    rewrite Z.land_spec.
    destruct (Z.testbit b0 n), (Z.testbit CS_MASK n),
      (Z.testbit A1_MASK n); done.
  - destruct bs as [|b1 [|b2 [|b3 [|b4 [|b5 [|]]]]]]; try done.
    apply frame_data_lines; [by constructor|done].
Qed.

(** A command for device 3 goes by, then the Read-block command
    08 00 00 0A 02 00 for this device, CS high between its bytes. *)
Lemma latchCommand_frame_witness :
  latchCommand [0xFFC0; 0x6800; 0xFF80; 0x0800; 0xFF80; 0x0000; 0xFF80; 0x0000;
                0xFF80; 0x0A00; 0xFF80; 0x0200; 0xFF80; 0x0000; 0xFFC0]
    = Some ([0x0800; 0x0000; 0x0000; 0x0A00; 0x0200; 0x0000], [0xFFC0], 2%nat) /\
  frame [0x0800; 0x0000; 0x0000; 0x0A00; 0x0200; 0x0000] = [0x08; 0; 0; 0x0A; 2; 0].
Proof.
  split; [vm_compute; reflexivity|].
  refine (proj2 (proj2 (latchCommand_frame
    [0xFFC0; 0x6800; 0xFF80; 0x0800; 0xFF80; 0x0000; 0xFF80; 0x0000;
     0xFF80; 0x0A00; 0xFF80; 0x0200; 0xFF80; 0x0000; 0xFFC0] _ _ _ _ eq_refl))).
  repeat constructor; vm_compute; congruence.
Defined.

(** ** What a command cycle leaves untouched *)

Lemma keeps_ret {A X} (f : State -> X) (a : A) : keeps f (mret a).
Proof. by intros s. Qed.

Lemma keeps_gets {A X} (f : State -> X) (g : State -> A) : keeps f (gets g).
Proof. by intros s. Qed.

Lemma keeps_emit {X} (f : State -> X) e : keeps f (emit e).
Proof. by intros s. Qed.

Lemma keeps_modify {X} (f : State -> X) g :
  (forall s, f (g s) = f s) -> keeps f (modify g).
Proof. intros H s. apply H. Qed.

Lemma keeps_bind {A B X} (f : State -> X) (m : M A) (k : A -> M B) :
  keeps f m -> (forall a, keeps f (k a)) -> keeps f (m ≫= k).
Proof. intros Hm Hk s. by rewrite final_bind, Hk, Hm. Qed.

Create HintDb acsi_keeps.

#[local] Hint Resolve keeps_ret keeps_gets keeps_emit keeps_bind : acsi_keeps.
#[local] Hint Extern 1 (keeps _ (modify _)) =>
  (apply keeps_modify; intros; reflexivity) : acsi_keeps.
#[local] Hint Extern 2 (keeps _ (if ?c then _ else _)) => destruct c : acsi_keeps.

Lemma keeps_forBytes {X} (f : State -> X) body n b :
  (forall i, keeps f (body i)) -> keeps f (forBytes n b body).
Proof.
  intros Hbody; revert b; induction n as [|n IH]; intros b; cbn [forBytes];
    auto with acsi_keeps.
Qed.

Lemma keeps_retryLoop {X} (f : State -> X) env op tries :
  keeps f op -> keeps f (sdInit env) -> keeps f (retryLoop env op tries).
Proof.
  intros Hop Hinit; induction tries as [|t IH]; cbn [retryLoop].
  - apply keeps_bind; [done|]. intros []; auto with acsi_keeps.
  - apply keeps_bind; [done|]. intros []; [auto with acsi_keeps|].
    do 2 (apply keeps_bind; [auto with acsi_keeps|intros _]).
    destruct (_ <=? _); [|done].
    apply keeps_bind; [done|]. intros []; auto with acsi_keeps.
Qed.

Section Keeps.

Context {X : Type} (f : State -> X).

(** [f] looks at nothing that the card driver, [sdInit] or a store into
    [dataBuf] changes. *)
Hypothesis f_dataBuf : forall d s, f (set_dataBuf d s) = f s.
Hypothesis f_sdBlocks : forall n s, f (set_sdBlocks n s) = f s.
Hypothesis f_sdReady : forall r s, f (set_sdReady r s) = f s.
Hypothesis f_tick_init : forall s, f (tick_init s) = f s.
Hypothesis f_tick_read : forall s, f (tick_read s) = f s.
Hypothesis f_tick_write : forall s, f (tick_write s) = f s.
Hypothesis f_tick_dma : forall s, f (tick_dma s) = f s.

#[local] Hint Extern 1 (keeps f (modify _)) =>
  (apply keeps_modify; intros;
   rewrite ?f_dataBuf, ?f_sdBlocks, ?f_sdReady, ?f_tick_init, ?f_tick_read,
     ?f_tick_write, ?f_tick_dma; reflexivity) : acsi_keeps.

Lemma keeps_poke i v : keeps f (poke i v).
Proof. unfold poke; auto with acsi_keeps. Qed.

Lemma keeps_sdInit env : keeps f (sdInit env).
Proof. unfold sdInit; auto 10 with acsi_keeps. Qed.

Lemma keeps_cardRead env block : keeps f (cardRead env block).
Proof. unfold cardRead; auto 10 with acsi_keeps. Qed.

Lemma keeps_cardWrite env block : keeps f (cardWrite env block).
Proof. unfold cardWrite; auto 10 with acsi_keeps. Qed.

Lemma keeps_sendDma count : keeps f (sendDma count).
Proof. unfold sendDma; auto with acsi_keeps. Qed.

Lemma keeps_readDma env count : keeps f (readDma env count).
Proof. unfold readDma; auto 10 with acsi_keeps. Qed.

Lemma keeps_readBlock env block : keeps f (readBlock env block).
Proof.
  unfold readBlock.
  apply keeps_retryLoop; [apply keeps_cardRead|apply keeps_sdInit].
Qed.

Lemma keeps_writeBlock env block : keeps f (writeBlock env block).
Proof.
  unfold writeBlock.
  apply keeps_retryLoop; [apply keeps_cardWrite|apply keeps_sdInit].
Qed.

#[local] Hint Resolve keeps_forBytes keeps_poke keeps_sdInit keeps_sendDma
  keeps_readDma keeps_readBlock keeps_writeBlock : acsi_keeps.

Lemma keeps_readLoop env blocks block : keeps f (readLoop env blocks block).
Proof.
  revert block; induction blocks as [|n IH]; intros block; cbn [readLoop];
    unfold commandSuccess, commandError, sendStatus; auto 10 with acsi_keeps.
Qed.

Lemma keeps_writeLoop env blocks block : keeps f (writeLoop env blocks block).
Proof.
  revert block; induction blocks as [|n IH]; intros block; cbn [writeLoop];
    unfold commandSuccess, commandError, sendStatus; auto 10 with acsi_keeps.
Qed.

#[local] Hint Resolve keeps_readLoop keeps_writeLoop : acsi_keeps.

Lemma keeps_modeSense : keeps f modeSense.
Proof.
  unfold modeSense, cmd, commandSuccess, sendStatus.
  apply keeps_bind; [auto with acsi_keeps|intros sub].
  apply keeps_bind; [|auto with acsi_keeps].
  repeat match goal with
         | |- keeps f (match ?x with _ => _ end) => destruct x
         end; auto 20 with acsi_keeps.
Qed.

Lemma keeps_inquiry : keeps f inquiry.
Proof.
  unfold inquiry, cmd, commandSuccess, sendStatus.
  apply keeps_bind; [auto with acsi_keeps|intros len].
  apply keeps_bind; [|auto with acsi_keeps].
  apply keeps_forBytes; intros i; destruct (_ <? _)%nat; auto with acsi_keeps.
Qed.

Lemma keeps_execute env : keeps f (execute env).
Proof.
  pose proof keeps_modeSense. pose proof keeps_inquiry.
  unfold execute, cmd.
  apply keeps_bind; [auto with acsi_keeps|intros op].
  repeat match goal with
         | |- keeps f (match ?x with _ => _ end) => destruct x
         end;
    unfold testReady, requestSense, readCommand, writeCommand, cmd,
      commandSuccess, commandError, sendStatus;
    auto 20 with acsi_keeps.
Qed.

End Keeps.

(** X4: a command cycle never writes to [cmdBuf] after [waitCommand]
    has stored the frame: at the end of the cycle [cmdBuf] still holds the
    frame that came in, whatever the command did. *)
Theorem loop_keeps_frame env b s : cmdBuf (final (loop env b s)) = frame b.
Proof.
  assert (Hk : forall m : M unit, m = execute env \/ m = commandError ->
                                  keeps cmdBuf m).
  { intros m [->| ->]; [by apply keeps_execute|by intros ?]. }
  unfold loop, waitCommand.
  rewrite final_bind; cbn [value final modify fst snd].
  rewrite final_bind; cbn [value final gets fst snd sdReady set_cmdBuf].
  destruct (sdReady s); cbn [negb].
  - by rewrite Hk by auto.
  - rewrite final_bind.
    destruct (value (sdInit env _)); cbn [negb].
    + rewrite Hk by auto. by rewrite keeps_sdInit.
    + rewrite Hk by auto. by rewrite keeps_sdInit.
Qed.

(** X5: over any number of command cycles, whatever the frames and the
    answers of the card, the device sends exactly one status byte per
    command, each of them 0 or 2. *)
Theorem session_one_status_per_command env frames s :
  length (statuses (events (session env frames s))) = length frames /\
  Forall (fun c => c = 0 \/ c = 2) (statuses (events (session env frames s))).
Proof.
  revert s; induction frames as [|b frames IH]; intros s; [by split|].
  cbn [session]. rewrite events_bind, statuses_app.
  destruct (closing_loop env b s) as (pre & c & -> & Hpre & Hc).
  destruct (IH (final (loop env b s))) as [IHlen IHall].
  rewrite statuses_app, Hpre, length_app, IHlen. split; [done|].
  apply Forall_app; split; [|done]. by constructor.
Qed.


(** ** Commands that move no data *)

Lemma atDispatch_n_init env b s :
  n_init (atDispatch env b s) = if sdReady s then n_init s else S (n_init s).
Proof.
  unfold atDispatch. destruct (sdReady s); [done|]. by rewrite n_init_sdInit.
Qed.

Lemma sdReady_sdInit env s :
  sdReady (final (sdInit env s)) = card_init env (n_init s).
Proof. rewrite sdInit_run; cbn. by destruct (card_init env (n_init s)). Qed.

Lemma execute_unknown env s :
  ~ In (nth 0 (cmdBuf s) 0) knownOpcodes ->
  events (execute env s) = [EvStatus 2].
Proof.
  intros H. unfold execute, cmd. rewrite bind_gets.
  destruct (nth 0 (cmdBuf s) 0) as [|p|p]; [| |done].
  - exfalso; apply H; cbn; tauto.
  - repeat match goal with
           | |- context [match ?x with _ => _ end] => destruct x
           end;
      first [done | exfalso; apply H; cbn; tauto].
Qed.

(** X6: a frame whose opcode is none of the thirteen that [loop]
    knows gets status 2; no block is read or written and nothing goes
    over DMA. *)
Theorem unknown_opcode env b s :
  ~ In (nth 0 (frame b) 0) knownOpcodes ->
  actions (events (loop env b s)) = [AStatus 2] /\
  blockOps (events (loop env b s)) = 0%nat.
Proof.
  intros Hop.
  assert (He : events (execute env (atDispatch env b s)) = [EvStatus 2])
    by (apply execute_unknown; by rewrite atDispatch_cmdBuf).
  destruct (sdReady s) eqn:Hr.
  - rewrite loop_ready by done. by rewrite He.
  - destruct (card_init env (n_init s)) eqn:Hi.
    + rewrite loop_reinit by done. cbn [events snd]. by rewrite He.
    + by rewrite loop_not_ready.
Qed.

(** Opcode 0x1C on a working card. *)
Lemma unknown_opcode_witness :
  actions (events (loop goodCard [0x1C00; 0; 0; 0; 0; 0] (readyState 100)))
    = [AStatus 2] /\
  blockOps (events (loop goodCard [0x1C00; 0; 0; 0; 0; 0] (readyState 100)))
    = 0%nat.
Proof.
  apply unknown_opcode. vm_compute. intuition discriminate.
Defined.




Lemma testReady_run env s :
  testReady env s =
  (tt, final (sdInit env s),
   [EvCardInit; EvStatus (if card_init env (n_init s) then 0 else 2)]).
Proof.
  unfold testReady. rewrite run_bind, sdInit_run; cbn [value final events fst snd].
  by destruct (card_init env (n_init s)).
Qed.

Lemma execute_testReady env s :
  In (nth 0 (cmdBuf s) 0) [0x00; 0x04; 0x05; 0x06] ->
  execute env s = testReady env s.
Proof.
  intros H. unfold execute, cmd. rewrite bind_gets.
  cbn in H. destruct H as [<-|[<-|[<-|[<-|[]]]]]; reflexivity.
Qed.

(** X8: Test drive ready, Format drive, Verify track and Format track
    (0x00, 0x04, 0x05, 0x06) probe the card again even when it is marked
    ready; the status is 0 exactly when every [card.init] of the cycle
    succeeded, and [sdReady] is left equal to that answer, so a card that
    has gone is marked not ready. *)
Theorem testReady_commands env b s :
  In (nth 0 (frame b) 0) [0x00; 0x04; 0x05; 0x06] ->
  let ok := if sdReady s then card_init env (n_init s)
            else card_init env (n_init s) && card_init env (S (n_init s)) in
  actions (events (loop env b s)) = [AStatus (if ok then 0 else 2)] /\
  inits (events (loop env b s)) =
    (if sdReady s then 1 else if card_init env (n_init s) then 2 else 1)%nat /\
  sdReady (final (loop env b s)) = ok.
Proof.
  intros Hop ok; subst ok.
  assert (He : execute env (atDispatch env b s) = testReady env (atDispatch env b s))
    by (apply execute_testReady; by rewrite atDispatch_cmdBuf).
  destruct (sdReady s) eqn:Hr.
  - rewrite loop_ready, He, testReady_run by done.
    cbn [events final fst snd]. rewrite sdReady_sdInit, atDispatch_n_init, Hr.
    by destruct (card_init env (n_init s)).
  - destruct (card_init env (n_init s)) eqn:Hi.
    + rewrite loop_reinit, He, testReady_run by done.
      cbn [events final value fst snd andb].
      rewrite sdReady_sdInit, atDispatch_n_init, Hr.
      by destruct (card_init env (S (n_init s))).
    + split; [by rewrite loop_not_ready|]. split; [by rewrite loop_not_ready|].
      unfold loop, waitCommand.
      rewrite final_bind; cbn [value final modify fst snd].
      rewrite final_bind; cbn [value final gets fst snd sdReady set_cmdBuf].
      rewrite Hr; cbn [negb]. rewrite final_bind.
      rewrite sdInit_run; cbn [value final fst snd n_init set_cmdBuf].
      rewrite Hi; reflexivity.
Qed.

(** Test drive ready on a card that was ready and has been pulled. *)
Lemma testReady_commands_witness :
  actions (events (loop noCard [0; 0; 0; 0; 0; 0] (readyState 100))) = [AStatus 2] /\
  inits (events (loop noCard [0; 0; 0; 0; 0; 0] (readyState 100))) = 1%nat /\
  sdReady (final (loop noCard [0; 0; 0; 0; 0; 0] (readyState 100))) = false.
Proof. apply (testReady_commands noCard [0; 0; 0; 0; 0; 0] (readyState 100)). cbn; tauto. Defined.

(** ** Transient card errors *)

Section RetryOutcome.

Context (env : Env).
Context (op : M bool) (outcome : nat -> bool) (ctr : State -> nat).
Hypothesis op_value : forall s, value (op s) = outcome (ctr s).
Hypothesis op_event : forall s, exists e, events (op s) = [e] /\ isBlockOp e = true.
Hypothesis op_ctr : forall s, ctr (final (op s)) = S (ctr s).
Hypothesis op_n_init : forall s, n_init (final (op s)) = n_init s.
Hypothesis op_sdReady : forall s, sdReady (final (op s)) = sdReady s.
Hypothesis init_ctr : forall s, ctr (final (sdInit env s)) = ctr s.

Ltac outcome_side :=
  repeat first [ rewrite init_ctr | rewrite op_ctr
               | rewrite n_init_sdInit | rewrite op_n_init ];
  first [ assumption | change (MAXTRIES_SD `quot` 2) with 2; lia ].

Ltac outcome_run :=
  change (Z.to_nat MAXTRIES_SD) with 5%nat;
  repeat first
    [ rewrite (retry_success env op outcome ctr op_value) by outcome_side
    | rewrite (retry_exhausted env op outcome ctr op_value) by outcome_side
    | rewrite (retry_again env op outcome ctr op_value) by outcome_side
    | rewrite (retry_reinit env op outcome ctr op_value op_n_init) by outcome_side
    | rewrite (retry_reinit_fail env op outcome ctr op_value op_n_init) by outcome_side ];
  cbn [value final events fst snd].

Ltac outcome_count :=
  repeat match goal with
         | |- context [events (op ?s)] =>
             let e := fresh "e" in
             let He := fresh "He" in
             destruct (op_event s) as (e & -> & He)
         end;
  unfold blockOps, inits; cbn;
  repeat match goal with
         | He : isBlockOp ?e = true |- _ =>
             rewrite ?He;
             replace (isInit e) with false by (by destruct e);
             clear He
         end.

(** The driver fails [j] times, at most 4, and then succeeds; the
    reinitializations made on the way succeed. *)
Lemma retry_recovers (j : nat) s :
  (j <= 4)%nat ->
  upcoming outcome (ctr s) (S j) = replicate j false ++ [true] ->
  upcoming (card_init env) (n_init s) (j - 2) = replicate (j - 2) true ->
  value (retryLoop env op (Z.to_nat MAXTRIES_SD) s) = true /\
  blockOps (events (retryLoop env op (Z.to_nat MAXTRIES_SD) s)) = S j /\
  inits (events (retryLoop env op (Z.to_nat MAXTRIES_SD) s)) = (j - 2)%nat.
Proof.
  intros Hj Ho Hi.
  destruct j as [|[|[|[|[|j]]]]]; [| | | | |lia]; cbn in Ho, Hi.
  - injection Ho as Ho0. outcome_run. by outcome_count.
  - injection Ho as Ho0 Ho1. outcome_run. by outcome_count.
  - injection Ho as Ho0 Ho1 Ho2. outcome_run. by outcome_count.
  - injection Ho as Ho0 Ho1 Ho2 Ho3. injection Hi as Hi0.
    outcome_run. by outcome_count.
  - injection Ho as Ho0 Ho1 Ho2 Ho3 Ho4. injection Hi as Hi0 Hi1.
    outcome_run. by outcome_count.
Qed.

(** After a failed operation [sdReady] holds the answer of the last
    [card.init] the retries made. *)
Lemma retry_fails_sdReady s (i0 i1 i2 : bool) :
  (forall n, outcome n = false) ->
  upcoming (card_init env) (n_init s) 3 = [i0; i1; i2] ->
  sdReady (final (retryLoop env op (Z.to_nat MAXTRIES_SD) s)) = i0 && i1 && i2.
Proof.
  intros Hfail Hi. cbn in Hi. injection Hi as Hi0 Hi1 Hi2.
  assert (Hf : forall s', outcome (ctr s') = false) by (intros; apply Hfail).
  change (Z.to_nat MAXTRIES_SD) with 5%nat.
  rewrite (retry_again env op outcome ctr op_value 4 s),
    (retry_again env op outcome ctr op_value 3) by first [apply Hf | outcome_side].
  cbn [final fst snd].
  destruct i0.
  - rewrite (retry_reinit env op outcome ctr op_value op_n_init 2)
      by first [apply Hf | outcome_side].
    cbn [final fst snd]. destruct i1.
    + rewrite (retry_reinit env op outcome ctr op_value op_n_init 1)
        by first [apply Hf | outcome_side].
      cbn [final fst snd]. destruct i2.
      * rewrite (retry_reinit env op outcome ctr op_value op_n_init 0)
          by first [apply Hf | outcome_side].
        cbn [final fst snd].
        rewrite (retry_exhausted env op outcome ctr op_value) by apply Hf.
        cbn [final fst snd].
        rewrite op_sdReady, sdReady_sdInit. outcome_side.
      * rewrite (retry_reinit_fail env op outcome ctr op_value op_n_init 0)
          by first [apply Hf | outcome_side].
        cbn [final fst snd]. rewrite sdReady_sdInit. outcome_side.
    + rewrite (retry_reinit_fail env op outcome ctr op_value op_n_init 1)
        by first [apply Hf | outcome_side].
      cbn [final fst snd]. rewrite sdReady_sdInit. outcome_side.
  - rewrite (retry_reinit_fail env op outcome ctr op_value op_n_init 2)
      by first [apply Hf | outcome_side].
    cbn [final fst snd]. rewrite sdReady_sdInit. outcome_side.
Qed.

(** The driver fails every call from now on. *)
Lemma retry_fail_from tries s :
  (forall n, (ctr s <= n)%nat -> outcome n = false) ->
  value (retryLoop env op tries s) = false.
Proof.
  revert s; induction tries as [|t IH]; intros s Hfail.
  - rewrite (retry_exhausted env op outcome ctr op_value); [done|].
    by apply Hfail.
  - assert (Ho : outcome (ctr s) = false) by (by apply Hfail).
    destruct (Z.le_gt_cases (Z.of_nat t) (MAXTRIES_SD `quot` 2)) as [Ht|Ht].
    + destruct (card_init env (n_init s)) eqn:Hi.
      * rewrite (retry_reinit env op outcome ctr op_value op_n_init) by done.
        apply IH. intros n Hn. apply Hfail.
        rewrite init_ctr, op_ctr in Hn. lia.
      * by rewrite (retry_reinit_fail env op outcome ctr op_value op_n_init).
    + rewrite (retry_again env op outcome ctr op_value) by (done || lia).
      apply IH. intros n Hn. apply Hfail. rewrite op_ctr in Hn. lia.
Qed.

(** The loop calls the driver at least once, and what it shows outside
    is those driver calls and nothing else. *)
Context (a : action).
Hypothesis op_action : forall s, actions (events (op s)) = [a].

Lemma retry_actions tries s :
  actions (events (retryLoop env op tries s)) =
  replicate (blockOps (events (retryLoop env op tries s))) a /\
  (1 <= blockOps (events (retryLoop env op tries s)))%nat.
Proof.
  revert s; induction tries as [|t IH]; intros s.
  - destruct (outcome (ctr s)) eqn:Ho.
    + rewrite (retry_success env op outcome ctr op_value) by done.
      cbn [events snd]. by rewrite op_action, (blockOps_op op op_event).
    + rewrite (retry_exhausted env op outcome ctr op_value) by done.
      cbn [events snd]. by rewrite op_action, (blockOps_op op op_event).
  - destruct (outcome (ctr s)) eqn:Ho.
    { rewrite (retry_success env op outcome ctr op_value) by done.
      cbn [events snd]. by rewrite op_action, (blockOps_op op op_event). }
    destruct (Z.le_gt_cases (Z.of_nat t) (MAXTRIES_SD `quot` 2)) as [Ht|Ht].
    + destruct (card_init env (n_init s)) eqn:Hi.
      * rewrite (retry_reinit env op outcome ctr op_value op_n_init) by done.
        cbn [events snd].
        destruct (IH (final (sdInit env (final (op s))))) as [IHa IHn].
        rewrite actions_app, blockOps_app, op_action, (blockOps_op op op_event).
        rewrite !actions_cons, !blockOps_cons; cbn [actionOf isBlockOp].
        rewrite IHa. split; [done|lia].
      * rewrite (retry_reinit_fail env op outcome ctr op_value op_n_init) by done.
        cbn [events snd].
        rewrite actions_app, blockOps_app, op_action, (blockOps_op op op_event).
        by split.
    + rewrite (retry_again env op outcome ctr op_value) by (done || lia).
      cbn [events snd].
      destruct (IH (final (op s))) as [IHa IHn].
      rewrite actions_app, blockOps_app, op_action, (blockOps_op op op_event).
      rewrite !actions_cons, !blockOps_cons; cbn [actionOf isBlockOp].
      rewrite IHa. split; [done|lia].
Qed.

End RetryOutcome.

Lemma sdReady_cardRead env block s : sdReady (final (cardRead env block s)) = sdReady s.
Proof. reflexivity. Qed.

Lemma sdReady_cardWrite env block s : sdReady (final (cardWrite env block s)) = sdReady s.
Proof. reflexivity. Qed.

(** X9: transient errors are absorbed.  When the driver fails [j]
    times, [j] at most 4, and then succeeds, and the reinitializations
    made on the way succeed, [readBlock] and [writeBlock] report success
    after [j + 1] driver calls; [sdInit] has been called [j - 2] times
    (not at all for up to two failures). *)
Theorem block_op_recovers env block j s :
  (j <= 4)%nat ->
  upcoming (card_init env) (n_init s) (j - 2) = replicate (j - 2) true ->
  (upcoming (card_readBlock env) (n_read s) (S j) = replicate j false ++ [true] ->
   value (readBlock env block s) = true /\
   blockOps (events (readBlock env block s)) = S j /\
   inits (events (readBlock env block s)) = (j - 2)%nat) /\
  (upcoming (card_writeBlock env) (n_write s) (S j) = replicate j false ++ [true] ->
   value (writeBlock env block s) = true /\
   blockOps (events (writeBlock env block s)) = S j /\
   inits (events (writeBlock env block s)) = (j - 2)%nat).
Proof.
  intros Hj Hi; split; intros Ho.
  - apply (retry_recovers env (cardRead env block) (card_readBlock env) n_read);
      auto using cardRead_event, n_read_sdInit.
  - apply (retry_recovers env (cardWrite env block) (card_writeBlock env) n_write);
      auto using cardWrite_event, n_write_sdInit.
Qed.

(** On [slowCard] with one block operation already made, four calls
    fail and the fifth works. *)
Lemma block_op_recovers_witness :
  (value (readBlock slowCard 7 (mkState [] (replicate 512 0) 100 true 1 1 1 0)) = true /\
   blockOps (events (readBlock slowCard 7
               (mkState [] (replicate 512 0) 100 true 1 1 1 0))) = 5%nat /\
   inits (events (readBlock slowCard 7
            (mkState [] (replicate 512 0) 100 true 1 1 1 0))) = 2%nat) /\
  (value (writeBlock slowCard 7 (mkState [] (replicate 512 0) 100 true 1 1 1 0)) = true /\
   blockOps (events (writeBlock slowCard 7
               (mkState [] (replicate 512 0) 100 true 1 1 1 0))) = 5%nat /\
   inits (events (writeBlock slowCard 7
            (mkState [] (replicate 512 0) 100 true 1 1 1 0))) = 2%nat).
Proof.
  destruct (block_op_recovers slowCard 7 4
              (mkState [] (replicate 512 0) 100 true 1 1 1 0)
              ltac:(lia) eq_refl) as [Hr Hw].
  split; [exact (Hr eq_refl)|exact (Hw eq_refl)].
Defined.

(** X10: a block operation that fails for good (the driver failing
    every call) leaves [sdReady] equal to the answer of the last
    [card.init] its retries made: the card stays marked ready when the
    three reinitializations succeed, and is marked not ready as soon as
    one fails. *)
Theorem block_op_failure_sdReady env block s (i0 i1 i2 : bool) :
  upcoming (card_init env) (n_init s) 3 = [i0; i1; i2] ->
  ((forall n, card_readBlock env n = false) ->
   sdReady (final (readBlock env block s)) = i0 && i1 && i2) /\
  ((forall n, card_writeBlock env n = false) ->
   sdReady (final (writeBlock env block s)) = i0 && i1 && i2).
Proof.
  intros Hi; split; intros Hfail.
  - apply (retry_fails_sdReady env (cardRead env block) (card_readBlock env) n_read);
      auto using n_read_sdInit.
  - apply (retry_fails_sdReady env (cardWrite env block) (card_writeBlock env) n_write);
      auto using n_write_sdInit.
Qed.

Lemma block_op_failure_sdReady_witness :
  sdReady (final (readBlock deadCard 7 (readyState 100))) = true /\
  sdReady (final (writeBlock dyingCard 7 (readyState 0))) = false.
Proof.
  split.
  - exact (proj1 (block_op_failure_sdReady deadCard 7 (readyState 100)
                    true true true eq_refl) (fun _ => eq_refl)).
  - exact (proj2 (block_op_failure_sdReady dyingCard 7 (readyState 0)
                    false false false eq_refl) (fun _ => eq_refl)).
Defined.

Lemma readBlock_actions env block s :
  actions (events (readBlock env block s)) =
    replicate (blockOps (events (readBlock env block s))) (ARead block) /\
  (1 <= blockOps (events (readBlock env block s)) <= 6)%nat.
Proof.
  destruct (retry_actions env (cardRead env block) (card_readBlock env) n_read
              ltac:(done) (cardRead_event env block) ltac:(done)
              (ARead block) ltac:(done) (Z.to_nat MAXTRIES_SD) s) as [Ha Hn].
  pose proof (readBlock_blockOps_le env block s). unfold readBlock. auto.
Qed.

Lemma writeBlock_actions env block s :
  actions (events (writeBlock env block s)) =
    replicate (blockOps (events (writeBlock env block s))) (AWrite block) /\
  (1 <= blockOps (events (writeBlock env block s)) <= 6)%nat.
Proof.
  destruct (retry_actions env (cardWrite env block) (card_writeBlock env) n_write
              ltac:(done) (cardWrite_event env block) ltac:(done)
              (AWrite block) ltac:(done) (Z.to_nat MAXTRIES_SD) s) as [Ha Hn].
  pose proof (writeBlock_blockOps_le env block s). unfold writeBlock. auto.
Qed.

(** X11: [readBlock] and [writeBlock] act on the requested block and
    on nothing else: apart from [card.init], the watchdog and the delay,
    all they do is call the driver on that block, at least once and at
    most 6 times; they start no DMA transfer and send no status. *)
Theorem block_op_actions env block s :
  (actions (events (readBlock env block s)) =
     replicate (blockOps (events (readBlock env block s))) (ARead block) /\
   (1 <= blockOps (events (readBlock env block s)) <= 6)%nat) /\
  (actions (events (writeBlock env block s)) =
     replicate (blockOps (events (writeBlock env block s))) (AWrite block) /\
   (1 <= blockOps (events (writeBlock env block s)) <= 6)%nat).
Proof. split; [apply readBlock_actions|apply writeBlock_actions]. Qed.

(** ** The data path of block transfers *)





Lemma readDma_run env count s :
  readDma env count s =
  (tt,
   set_dataBuf (store_bytes (take (Z.to_nat count) (bus_dmaData env (n_dma s)))
                  (dataBuf s)) (tick_dma s),
   [EvReadDma count]).
Proof. reflexivity. Qed.






(** ** Transfers that stop half way *)

Lemma readBlock_fail_from env block s :
  (forall n, (n_read s <= n)%nat -> card_readBlock env n = false) ->
  value (readBlock env block s) = false.
Proof.
  apply (retry_fail_from env (cardRead env block) (card_readBlock env) n_read);
    auto using n_read_sdInit.
Qed.

Lemma writeBlock_fail_from env block s :
  (forall n, (n_write s <= n)%nat -> card_writeBlock env n = false) ->
  value (writeBlock env block s) = false.
Proof.
  apply (retry_fail_from env (cardWrite env block) (card_writeBlock env) n_write);
    auto using n_write_sdInit.
Qed.

Lemma readLoop_stops env j n k base s :
  (j < n)%nat ->
  length (dataBuf s) = 512%nat ->
  (forall i, (i < j)%nat -> card_readBlock env (i + n_read s) = true) ->
  (forall i, (j + n_read s <= i)%nat -> card_readBlock env i = false) ->
  exists m, (1 <= m <= 6)%nat /\
    actions (events (readLoop env n (base + Z.of_nat k) s)) =
    flat_map (fun i => [ARead (base + Z.of_nat i); ASend (Z.to_nat BLOCKSIZE)])
             (seq k j) ++
    replicate m (ARead (base + Z.of_nat (k + j))) ++ [AStatus 2].
Proof.
  revert n k s; induction j as [|j IH]; intros n k s Hn Hlen Hok Hfail;
    (destruct n as [|n]; [lia|]); cbn [readLoop seq flat_map].
  - rewrite bind_emit; cbn [events snd].
    rewrite events_bind, readBlock_fail_from by done. cbn [negb].
    destruct (readBlock_actions env (base + Z.of_nat k) s) as [Ha Hm].
    exists (blockOps (events (readBlock env (base + Z.of_nat k) s))).
    split; [done|].
    rewrite actions_cons, actions_app, Ha; cbn [actionOf app].
    by rewrite Nat.add_0_r.
  - rewrite bind_emit; cbn [events snd].
    rewrite events_bind, readBlock_first_try by apply (Hok 0%nat), Nat.lt_0_succ.
    cbn [value final events fst snd negb].
    rewrite events_bind, sendDma_events.
    change (final (sendDma BLOCKSIZE ?t)) with t.
    rewrite cardRead_run; cbn [final fst snd].
    replace (base + Z.of_nat k + 1) with (base + Z.of_nat (S k)) by lia.
    destruct (IH n (S k)
                (set_dataBuf (store_bytes (card_readData env (n_read s)) (dataBuf s))
                   (tick_read s))) as (m & Hm & He).
    + lia.
    + by rewrite dataBuf_set_dataBuf, store_bytes_length.
    + intros i Hi. cbn [n_read set_dataBuf tick_read].
      rewrite <- Nat.add_succ_comm. apply Hok. lia.
    + intros i Hi. cbn [n_read set_dataBuf tick_read] in Hi. apply Hfail. lia.
    + exists m. split; [done|].
      rewrite actions_cons, !actions_app, !actions_cons.
      cbn [actionOf app]; change (actions []) with (@nil action); cbn [app].
      rewrite length_take, dataBuf_set_dataBuf, store_bytes_length, Hlen.
      change (Z.to_nat BLOCKSIZE `min` 512)%nat with (Z.to_nat BLOCKSIZE).
      rewrite He. by rewrite <- Nat.add_succ_comm.
Qed.

Lemma writeLoop_stops env j n k base s :
  (j < n)%nat ->
  (forall i, (i < j)%nat -> card_writeBlock env (i + n_write s) = true) ->
  (forall i, (j + n_write s <= i)%nat -> card_writeBlock env i = false) ->
  exists m, (1 <= m <= 6)%nat /\
    actions (events (writeLoop env n (base + Z.of_nat k) s)) =
    flat_map (fun i => [AReceive BLOCKSIZE; AWrite (base + Z.of_nat i)])
             (seq k j) ++
    AReceive BLOCKSIZE ::
    replicate m (AWrite (base + Z.of_nat (k + j))) ++ [AStatus 2].
Proof.
  revert n k s; induction j as [|j IH]; intros n k s Hn Hok Hfail;
    (destruct n as [|n]; [lia|]); cbn [writeLoop seq flat_map].
  - rewrite bind_emit; cbn [events snd].
    rewrite events_bind, readDma_run; cbn [value final events fst snd].
    rewrite events_bind, writeBlock_fail_from by done. cbn [negb].
    match goal with
    | |- context [events (writeBlock env ?bl ?t)] =>
        destruct (writeBlock_actions env bl t) as [Ha Hm];
        exists (blockOps (events (writeBlock env bl t)))
    end.
    split; [done|].
    rewrite actions_cons, actions_app, actions_cons, actions_app, Ha;
      cbn [actionOf app]; change (actions []) with (@nil action); cbn [app].
    by rewrite Nat.add_0_r.
  - rewrite bind_emit; cbn [events snd].
    rewrite events_bind, readDma_run; cbn [value final events fst snd].
    rewrite events_bind, writeBlock_first_try by apply (Hok 0%nat), Nat.lt_0_succ.
    cbn [value final events fst snd negb].
    rewrite cardWrite_run; cbn [final fst snd].
    replace (base + Z.of_nat k + 1) with (base + Z.of_nat (S k)) by lia.
    match goal with
    | |- context [writeLoop env n _ ?t] =>
        destruct (IH n (S k) t) as (m & Hm & He)
    end.
    + lia.
    + intros i Hi. cbn [n_write set_dataBuf tick_dma tick_write].
      rewrite <- Nat.add_succ_comm. apply Hok. lia.
    + intros i Hi. cbn [n_write set_dataBuf tick_dma tick_write] in Hi.
      apply Hfail. lia.
    + exists m. split; [done|].
      rewrite actions_cons, !actions_app, !actions_cons.
      cbn [actionOf app]; change (actions []) with (@nil action); cbn [app].
      rewrite He. by rewrite <- Nat.add_succ_comm.
Qed.

(** X14: a Read-block command stops at the first block that cannot be
    read.  When the first [j] blocks are read at once and the card then
    fails every call, those [j] blocks have been sent, the failing block
    is tried between 1 and 6 times, no later block is touched and the
    status is 2. *)
Theorem read_stops_at_failure env b s (j : nat) :
  cardUsable env s = true ->
  length (dataBuf s) = 512%nat ->
  nth 0 (frame b) 0 = 0x08 ->
  1 <= blockNumber (frame b) + nth 4 (frame b) 0 <= capacityAtDispatch env s ->
  (j < Z.to_nat (nth 4 (frame b) 0%Z))%nat ->
  (forall i, (i < j)%nat -> card_readBlock env (i + n_read s) = true) ->
  (forall i, (j + n_read s <= i)%nat -> card_readBlock env i = false) ->
  exists m, (1 <= m <= 6)%nat /\
    actions (events (loop env b s)) =
    flat_map (fun i => [ARead (blockNumber (frame b) + Z.of_nat i);
                        ASend (Z.to_nat BLOCKSIZE)]) (seq 0 j) ++
    replicate m (ARead (blockNumber (frame b) + Z.of_nat j)) ++ [AStatus 2].
Proof.
  intros Hg Hlen Hop Hrange Hj Hok Hfail.
  rewrite loop_usable_actions by done.
  rewrite execute_read by (by rewrite atDispatch_cmdBuf).
  rewrite readCommand_within
    by (rewrite atDispatch_cmdBuf, atDispatch_sdBlocks; by apply outOfRange_within).
  rewrite atDispatch_cmdBuf.
  destruct (readLoop_stops env j (Z.to_nat (nth 4 (frame b) 0)) 0%nat
              (blockNumber (frame b)) (atDispatch env b s))
    as (m & Hm & He);
    rewrite ?atDispatch_dataBuf, ?atDispatch_n_read; try done.
  exists m. split; [done|].
  cbn [Z.of_nat Nat.add] in He. by rewrite Z.add_0_r in He.
Qed.

(** On [wornCard], of blocks 10 and 11, block 10 is sent. *)
Lemma read_stops_at_failure_witness :
  exists m, (1 <= m <= 6)%nat /\
    actions (events (loop wornCard [0x0800; 0; 0; 0x0A00; 0x0200; 0]
                       (readyState 100))) =
    [ARead 10; ASend 512] ++ replicate m (ARead 11) ++ [AStatus 2].
Proof.
  refine (read_stops_at_failure wornCard [0x0800; 0; 0; 0x0A00; 0x0200; 0]
            (readyState 100) 1 eq_refl eq_refl eq_refl _ _ _ _).
  - vm_compute. split; discriminate.
  - vm_compute. lia.
  - intros i Hi. by destruct i; [|lia].
  - intros i Hi. cbn in Hi. destruct i; [lia|reflexivity].
Defined.

(** X15: a Write-block command stops at the first block that cannot
    be written, and the data of that block has been received from the
    peer all the same.  When the first [j] blocks are written at once and
    the card then fails every call, the failing block is received, tried
    between 1 and 6 times, nothing further is received and the status
    is 2. *)
Theorem write_stops_at_failure env b s (j : nat) :
  cardUsable env s = true ->
  nth 0 (frame b) 0 = 0x0A ->
  1 <= blockNumber (frame b) + nth 4 (frame b) 0 <= capacityAtDispatch env s ->
  (j < Z.to_nat (nth 4 (frame b) 0%Z))%nat ->
  (forall i, (i < j)%nat -> card_writeBlock env (i + n_write s) = true) ->
  (forall i, (j + n_write s <= i)%nat -> card_writeBlock env i = false) ->
  exists m, (1 <= m <= 6)%nat /\
    actions (events (loop env b s)) =
    flat_map (fun i => [AReceive BLOCKSIZE;
                        AWrite (blockNumber (frame b) + Z.of_nat i)]) (seq 0 j) ++
    AReceive BLOCKSIZE ::
    replicate m (AWrite (blockNumber (frame b) + Z.of_nat j)) ++ [AStatus 2].
Proof.
  intros Hg Hop Hrange Hj Hok Hfail.
  rewrite loop_usable_actions by done.
  rewrite execute_write by (by rewrite atDispatch_cmdBuf).
  rewrite writeCommand_within
    by (rewrite atDispatch_cmdBuf, atDispatch_sdBlocks; by apply outOfRange_within).
  rewrite atDispatch_cmdBuf.
  destruct (writeLoop_stops env j (Z.to_nat (nth 4 (frame b) 0)) 0%nat
              (blockNumber (frame b)) (atDispatch env b s))
    as (m & Hm & He);
    rewrite ?atDispatch_n_write; try done.
  exists m. split; [done|].
  cbn [Z.of_nat Nat.add] in He. by rewrite Z.add_0_r in He.
Qed.

Lemma write_stops_at_failure_witness :
  exists m, (1 <= m <= 6)%nat /\
    actions (events (loop deadCard [0x0A00; 0; 0; 0x0A00; 0x0200; 0]
                       (readyState 100))) =
    AReceive 512 :: replicate m (AWrite 10) ++ [AStatus 2].
Proof.
  refine (write_stops_at_failure deadCard [0x0A00; 0; 0; 0x0A00; 0x0200; 0]
            (readyState 100) 0 eq_refl eq_refl _ _ _ _).
  - vm_compute. split; discriminate.
  - vm_compute. lia.
  - intros i Hi. lia.
  - intros i Hi. reflexivity.
Defined.

(** ** Empty transfers *)




(** ** Responses built in the data buffer *)

Lemma u8_small x : 0 <= x < 256 -> u8 x = x.
Proof. intros H. unfold u8. by apply Z.mod_small. Qed.

Lemma u8_low_byte x : u8 (Z.land x 0xFF) = Z.land x 0xFF.
Proof.
  apply u8_small. change 0xFF with (Z.ones 8). rewrite Z.land_ones by done.
  by apply Z.mod_pos_bound.
Qed.


Lemma set_dataBuf_twice d d' s : set_dataBuf d (set_dataBuf d' s) = set_dataBuf d s.
Proof. by destruct s. Qed.

Lemma set_dataBuf_same s : set_dataBuf (dataBuf s) s = s.
Proof. by destruct s. Qed.

(** [for(b = lo; b < lo + n; ++b) dataBuf[b] = g(b)] on a buffer that
    holds those indices. *)
Lemma forBytes_pokes_run (g : nat -> Z) n b s :
  (b + n <= length (dataBuf s))%nat ->
  forBytes n b (fun i => poke i (g i)) s =
  (tt,
   set_dataBuf (take b (dataBuf s) ++ ((fun i => u8 (g i)) <$> seq b n) ++
                drop (b + n) (dataBuf s)) s,
   []).
Proof.
  revert b s; induction n as [|n IH]; intros b s Hlen.
  - cbn [forBytes seq fmap list_fmap app].
    by rewrite Nat.add_0_r, take_drop, set_dataBuf_same.
  - cbn [forBytes]. rewrite bind_poke, IH
      by (rewrite dataBuf_set_dataBuf, length_insert; lia).
    rewrite dataBuf_set_dataBuf, set_dataBuf_twice.
    do 2 f_equal.
    rewrite (take_S_r _ _ (u8 (g b))) by (apply list_lookup_insert_eq; lia).
    rewrite take_insert_ge by done.
    rewrite drop_insert_lt by lia.
    rewrite <- app_assoc. cbn [seq fmap list_fmap app].
    by rewrite Nat.add_succ_r.
Qed.

Lemma fmap_const_seq {A} (v : A) b n : (fun _ : nat => v) <$> seq b n = replicate n v.
Proof.
  revert b; induction n as [|n IH]; intros b; [done|].
  cbn [seq fmap list_fmap replicate]. f_equal. apply IH.
Qed.

(** *** Request sense *)

Lemma execute_requestSense env s :
  nth 0 (cmdBuf s) 0 = 0x03 -> execute env s = requestSense env s.
Proof. intros H. unfold execute, cmd. rewrite bind_gets. by rewrite H. Qed.

Lemma requestSense_no_card env s :
  card_init env (n_init s) = false ->
  events (requestSense env s) = [EvCardInit; EvStatus 2].
Proof.
  intros Hi. unfold requestSense.
  rewrite events_bind, sdInit_run; cbn [value final events fst snd].
  by rewrite Hi.
Qed.

Lemma requestSense_run env s :
  card_init env (n_init s) = true ->
  (4 <= length (dataBuf s))%nat ->
  (Z.to_nat (nth 4 (cmdBuf s) 0%Z) <= length (dataBuf s))%nat ->
  events (requestSense env s) =
  [EvCardInit;
   EvSendDma
     (take (Z.to_nat (nth 4 (cmdBuf s) 0))
        ([0x80;
          Z.land (u32 (card_cardSize env (n_init s)) ≫ 16) 0xFF;
          Z.land (u32 (card_cardSize env (n_init s)) ≫ 8) 0xFF;
          Z.land (u32 (card_cardSize env (n_init s))) 0xFF] ++
         replicate (Z.to_nat (nth 4 (cmdBuf s) 0) - 4) 0));
   EvStatus 0].
Proof.
  intros Hi H4 Hlen. unfold requestSense.
  rewrite events_bind, sdInit_run; cbn [value final events fst snd].
  rewrite Hi; cbn [negb app]. f_equal.
  destruct s as [c d bl r ni nr nw nd]; cbn [dataBuf cmdBuf n_init] in *.
  destruct d as [|x0 [|x1 [|x2 [|x3 d]]]]; cbn [length] in H4; try lia.
  rewrite bind_poke, bind_gets, !bind_poke; unfold cmd; rewrite bind_gets.
  cbn [set_sdBlocks set_sdReady tick_init set_dataBuf dataBuf cmdBuf sdBlocks
       insert list_insert].
  rewrite events_bind, (forBytes_pokes_run (fun _ => 0))
    by (rewrite dataBuf_set_dataBuf; cbn [length] in *; lia).
  cbn [value final events fst snd app dataBuf set_dataBuf].
  rewrite events_bind, sendDma_events, commandSuccess_events.
  cbn [dataBuf set_dataBuf take drop Nat.add app].
  rewrite !u8_low_byte, fmap_const_seq.
  change (u8 128) with 128. change (u8 0) with 0.
  do 2 f_equal.
  clear Hlen. generalize (Z.to_nat (nth 4 c 0)); intros n.
  destruct n as [|[|[|[|n]]]]; cbn [take app Nat.sub]; try reflexivity.
  do 4 f_equal.
  rewrite Nat.sub_0_r, take_0; cbn [app].
  rewrite take_app_length' by (symmetry; apply length_replicate).
  by rewrite take_replicate, Nat.min_id.
Qed.

Lemma loop_requestSense env b s :
  cardUsable env s = true ->
  nth 0 (frame b) 0 = 0x03 ->
  length (dataBuf s) = 512%nat ->
  events (loop env b s) =
  (if sdReady s then [] else [EvCardInit]) ++
  events (requestSense env (atDispatch env b s)) /\
  (4 <= length (dataBuf (atDispatch env b s)))%nat /\
  (Z.to_nat (nth 4 (cmdBuf (atDispatch env b s)) 0%Z)
   <= length (dataBuf (atDispatch env b s)))%nat.
Proof.
  intros Hg Hop Hlen.
  rewrite loop_usable_events by done.
  rewrite execute_requestSense by (by rewrite atDispatch_cmdBuf).
  rewrite atDispatch_dataBuf, atDispatch_cmdBuf, Hlen.
  pose proof (frame_byte b 4). repeat split; lia.
Qed.

(** X17: Request sense (0x03) probes the card again.  If that fails
    the answer is status 2 and nothing is sent.  Otherwise the capacity
    just read from the card is on record and the response is 0x80, the
    three low bytes of that capacity, most significant first, and zeros,
    cut to the length asked for in frame byte 4; the status is 0. *)
Theorem requestSense_response env b s :
  cardUsable env s = true ->
  nth 0 (frame b) 0 = 0x03 ->
  length (dataBuf s) = 512%nat ->
  let n := if sdReady s then n_init s else S (n_init s) in
  let len := Z.to_nat (nth 4 (frame b) 0) in
  let blocks := u32 (card_cardSize env n) in
  events (loop env b s) =
  (if sdReady s then [] else [EvCardInit]) ++
  EvCardInit ::
  (if card_init env n
   then [EvSendDma (take len ([0x80;
                               Z.land (blocks ≫ 16) 0xFF;
                               Z.land (blocks ≫ 8) 0xFF;
                               Z.land blocks 0xFF] ++ replicate (len - 4) 0));
         EvStatus 0]
   else [EvStatus 2]).
Proof.
  intros Hg Hop Hlen n len blocks; subst n len blocks.
  destruct (loop_requestSense env b s) as (-> & H4 & Hl); try done.
  f_equal. rewrite <- (atDispatch_n_init env b s).
  destruct (card_init env (n_init (atDispatch env b s))) eqn:Hi.
  - rewrite requestSense_run by done. by rewrite atDispatch_cmdBuf.
  - by rewrite requestSense_no_card.
Qed.

(** Four bytes asked of a card of 100 blocks. *)
Lemma requestSense_response_witness :
  events (loop goodCard [0x0300; 0; 0; 0; 0x0400; 0] (readyState 100)) =
  [EvCardInit; EvSendDma [0x80; 0; 0; 100]; EvStatus 0].
Proof.
  apply (requestSense_response goodCard [0x0300; 0; 0; 0; 0x0400; 0]
           (readyState 100)); reflexivity.
Defined.

Lemma low_bytes_value x :
  Z.land (x ≫ 16) 0xFF * 65536 + Z.land (x ≫ 8) 0xFF * 256 + Z.land x 0xFF
  = x `mod` 2 ^ 24.
Proof.
  change 0xFF with (Z.ones 8). rewrite !Z.land_ones, !Z.shiftr_div_pow2 by done.
  change (2 ^ 16) with 65536. change (2 ^ 8) with 256.
  change (2 ^ 24) with 16777216.
  Z.div_mod_to_equations. lia.
Qed.

Lemma u32_mod_2_24 x : u32 x `mod` 2 ^ 24 = x `mod` 2 ^ 24.
Proof.
  unfold u32. change (2 ^ 32) with 4294967296. change (2 ^ 24) with 16777216.
  Z.div_mod_to_equations. lia.
Qed.

(** X18: the capacity that Request sense reports is the true one
    modulo 2^24.  Whenever a Request sense cycle of at least four bytes
    sends a response, bytes 1 to 3 of it, read as a 24-bit big-endian
    number, are the size the card gave at the command's [card.init],
    reduced modulo 2^24: a card of 2^24 blocks (8 GiB) or more is
    reported smaller than it is. *)
Theorem requestSense_capacity env b s resp :
  nth 0 (frame b) 0 = 0x03 ->
  length (dataBuf s) = 512%nat ->
  4 <= nth 4 (frame b) 0 ->
  In (EvSendDma resp) (events (loop env b s)) ->
  nth 1 resp 0 * 65536 + nth 2 resp 0 * 256 + nth 3 resp 0 =
  card_cardSize env (if sdReady s then n_init s else S (n_init s)) `mod` 2 ^ 24.
Proof.
  intros Hop Hlen H4 Hin.
  destruct (cardUsable env s) eqn:Hg.
  - destruct (loop_requestSense env b s) as (He & H4' & Hl); try done.
    rewrite He in Hin; clear He.
    rewrite <- (atDispatch_n_init env b s).
    destruct (card_init env (n_init (atDispatch env b s))) eqn:Hi.
    + rewrite requestSense_run in Hin by done.
      rewrite atDispatch_cmdBuf in Hin.
      assert (Hr : resp =
        take (Z.to_nat (nth 4 (frame b) 0))
          ([128;
            Z.land (u32 (card_cardSize env (n_init (atDispatch env b s))) ≫ 16) 255;
            Z.land (u32 (card_cardSize env (n_init (atDispatch env b s))) ≫ 8) 255;
            Z.land (u32 (card_cardSize env (n_init (atDispatch env b s)))) 255] ++
           replicate (Z.to_nat (nth 4 (frame b) 0) - 4) 0)).
      { apply in_app_or in Hin as [Hin|Hin].
        - destruct (sdReady s); cbn [In] in Hin; intuition discriminate.
        - cbn [In] in Hin.
          destruct Hin as [Hin|[Hin|[Hin|[]]]]; try discriminate.
          by injection Hin. }
      rewrite Hr.
      destruct (Z.to_nat (nth 4 (frame b) 0)) as [|[|[|[|n]]]] eqn:Hn; try lia.
      cbn [take app nth].
      by rewrite low_bytes_value, u32_mod_2_24.
    + rewrite requestSense_no_card in Hin by done.
      apply in_app_or in Hin as [Hin|Hin].
      * destruct (sdReady s); cbn [In] in Hin; intuition discriminate.
      * cbn [In] in Hin. intuition discriminate.
  - unfold cardUsable in Hg. apply orb_false_elim in Hg as [Hr Hi].
    rewrite loop_not_ready in Hin by done.
    cbn [In] in Hin. intuition discriminate.
Qed.

(** A card of 2^24 + 5 blocks is reported as one of 5 blocks. *)
Lemma requestSense_capacity_witness :
  nth 1 [0x80; 0; 0; 5] 0 * 65536 + nth 2 [0x80; 0; 0; 5] 0 * 256
    + nth 3 [0x80; 0; 0; 5] 0 =
  card_cardSize hugeCard 1 `mod` 2 ^ 24.
Proof.
  apply (requestSense_capacity hugeCard [0x0300; 0; 0; 0; 0x0400; 0]
           (readyState 100) [0x80; 0; 0; 5]);
    [reflexivity|reflexivity|vm_compute; discriminate|].
  vm_compute. right; left; reflexivity.
Defined.

(** *** Inquiry *)






(** *** Mode sense, sub-page 0 *)




(** ** A session without a card *)




(** ** Which blocks a command can touch *)

Lemma confined_ret {A} P (a : A) : confined P (mret a).
Proof. intros s; constructor. Qed.

Lemma confined_gets {A} P (f : State -> A) : confined P (gets f).
Proof. intros s; constructor. Qed.

Lemma confined_modify P f : confined P (modify f).
Proof. intros s; constructor. Qed.

Lemma confined_emit (P : event -> Prop) e : P e -> confined P (emit e).
Proof. intros He s. by repeat constructor. Qed.

Lemma confined_bind {A B} P (m : M A) (f : A -> M B) :
  confined P m -> (forall a, confined P (f a)) -> confined P (m ≫= f).
Proof.
  intros Hm Hf s. rewrite events_bind. apply Forall_app; split; [apply Hm|apply Hf].
Qed.

Lemma confined_forBytes P body n b :
  (forall i, confined P (body i)) -> confined P (forBytes n b body).
Proof.
  intros Hbody; revert b; induction n as [|n IH]; intros b; cbn [forBytes].
  - apply confined_ret.
  - apply confined_bind; auto.
Qed.

Create HintDb acsi_confined.

#[local] Hint Resolve confined_ret confined_gets confined_modify confined_bind
  confined_forBytes : acsi_confined.
#[local] Hint Extern 2 (confined _ (if ?c then _ else _)) => destruct c
  : acsi_confined.

Section Confined.

Context (P : event -> Prop).

(** [P] holds of everything but card reads and writes. *)
Hypothesis P_init : P EvCardInit.
Hypothesis P_feed : P EvFeed.
Hypothesis P_delay : forall ms, P (EvDelay ms).
Hypothesis P_send : forall l, P (EvSendDma l).
Hypothesis P_receive : forall c, P (EvReadDma c).
Hypothesis P_status : forall c, P (EvStatus c).

#[local] Hint Extern 1 (confined P (emit _)) =>
  (apply confined_emit; auto) : acsi_confined.

Lemma confined_poke i v : confined P (poke i v).
Proof. unfold poke; auto with acsi_confined. Qed.

Lemma confined_sdInit env : confined P (sdInit env).
Proof. unfold sdInit; auto 10 with acsi_confined. Qed.

Lemma confined_sendDma count : confined P (sendDma count).
Proof. unfold sendDma; auto with acsi_confined. Qed.

Lemma confined_readDma env count : confined P (readDma env count).
Proof. unfold readDma; auto 10 with acsi_confined. Qed.

Lemma confined_status c : confined P (sendStatus c).
Proof. unfold sendStatus; auto with acsi_confined. Qed.

Lemma confined_cardRead env block :
  P (EvCardRead block) -> confined P (cardRead env block).
Proof. intros H. unfold cardRead; auto 10 with acsi_confined. Qed.

Lemma confined_cardWrite env block :
  (forall d, P (EvCardWrite block d)) -> confined P (cardWrite env block).
Proof. intros H. unfold cardWrite; auto 10 with acsi_confined. Qed.

#[local] Hint Resolve confined_poke confined_sdInit confined_sendDma
  confined_readDma confined_status : acsi_confined.

Lemma confined_retryLoop env op tries :
  confined P op -> confined P (retryLoop env op tries).
Proof.
  intros Hop; induction tries as [|t IH]; cbn [retryLoop].
  - apply confined_bind; [done|]. intros []; auto with acsi_confined.
  - apply confined_bind; [done|]. intros []; [auto with acsi_confined|].
    do 2 (apply confined_bind; [auto with acsi_confined|intros _]).
    destruct (_ <=? _); [|done].
    apply confined_bind; [auto with acsi_confined|].
    intros []; auto with acsi_confined.
Qed.

Lemma confined_readLoop env n base :
  (forall i, (i < n)%nat -> P (EvCardRead (base + Z.of_nat i))) ->
  confined P (readLoop env n base).
Proof.
  revert base; induction n as [|n IH]; intros base Hp; cbn [readLoop];
    unfold commandSuccess, commandError; [auto with acsi_confined|].
  apply confined_bind; [auto with acsi_confined|intros _].
  apply confined_bind.
  - unfold readBlock. apply confined_retryLoop, confined_cardRead.
    rewrite <- (Z.add_0_r base). apply (Hp 0%nat). lia.
  - intros []; cbn [negb]; [|auto with acsi_confined].
    apply confined_bind; [auto with acsi_confined|intros _].
    apply IH. intros i Hi.
    replace (base + 1 + Z.of_nat i) with (base + Z.of_nat (S i)) by lia.
    apply Hp. lia.
Qed.

Lemma confined_writeLoop env n base :
  (forall i d, (i < n)%nat -> P (EvCardWrite (base + Z.of_nat i) d)) ->
  confined P (writeLoop env n base).
Proof.
  revert base; induction n as [|n IH]; intros base Hp; cbn [writeLoop];
    unfold commandSuccess, commandError; [auto with acsi_confined|].
  apply confined_bind; [auto with acsi_confined|intros _].
  apply confined_bind; [auto with acsi_confined|intros _].
  apply confined_bind.
  - unfold writeBlock. apply confined_retryLoop, confined_cardWrite.
    intros d. rewrite <- (Z.add_0_r base). apply (Hp 0%nat). lia.
  - intros []; cbn [negb]; [|auto with acsi_confined].
    apply IH. intros i d Hi.
    replace (base + 1 + Z.of_nat i) with (base + Z.of_nat (S i)) by lia.
    apply Hp. lia.
Qed.

Lemma confined_modeSense : confined P modeSense.
Proof.
  unfold modeSense, cmd, commandSuccess.
  apply confined_bind; [auto with acsi_confined|intros sub].
  apply confined_bind; [|auto with acsi_confined].
  repeat match goal with
         | |- confined P (match ?x with _ => _ end) => destruct x
         end; auto 20 with acsi_confined.
Qed.

Lemma confined_inquiry : confined P inquiry.
Proof.
  unfold inquiry, cmd, commandSuccess.
  apply confined_bind; [auto with acsi_confined|intros len].
  apply confined_bind; [|auto with acsi_confined].
  apply confined_forBytes; intros i; destruct (_ <? _)%nat;
    auto with acsi_confined.
Qed.

Lemma confined_requestSense env : confined P (requestSense env).
Proof.
  unfold requestSense, cmd, commandSuccess, commandError;
    auto 20 with acsi_confined.
Qed.

Lemma confined_testReady env : confined P (testReady env).
Proof.
  unfold testReady, commandSuccess, commandError; auto with acsi_confined.
Qed.

(** One run of the opcode switch: only the loops of Read block and Write
    block, entered once the range check has passed, have [P] to answer
    for. *)
Lemma execute_confined env s :
  (nth 0 (cmdBuf s) 0 = 0x08 ->
   outOfRange (blockNumber (cmdBuf s)) (nth 4 (cmdBuf s) 0) (sdBlocks s) = false ->
   forall i, (i < Z.to_nat (nth 4 (cmdBuf s) 0%Z))%nat ->
   P (EvCardRead (blockNumber (cmdBuf s) + Z.of_nat i))) ->
  (nth 0 (cmdBuf s) 0 = 0x0A ->
   outOfRange (blockNumber (cmdBuf s)) (nth 4 (cmdBuf s) 0) (sdBlocks s) = false ->
   forall i d, (i < Z.to_nat (nth 4 (cmdBuf s) 0%Z))%nat ->
   P (EvCardWrite (blockNumber (cmdBuf s) + Z.of_nat i) d)) ->
  Forall P (events (execute env s)).
Proof.
  intros Hread Hwrite.
  pose proof confined_modeSense. pose proof confined_inquiry.
  pose proof (confined_requestSense env). pose proof (confined_testReady env).
  unfold execute, cmd. rewrite bind_gets.
  destruct (decide (nth 0 (cmdBuf s) 0 = 0x08)) as [H8|H8].
  { rewrite H8. unfold readCommand. rewrite !bind_gets.
    destruct (outOfRange _ _ _) eqn:Hout.
    - by apply confined_status.
    - apply confined_readLoop. by apply Hread. }
  destruct (decide (nth 0 (cmdBuf s) 0 = 0x0A)) as [HA|HA].
  { rewrite HA. unfold writeCommand. rewrite !bind_gets.
    destruct (outOfRange _ _ _) eqn:Hout.
    - by apply confined_status.
    - apply confined_writeLoop. intros i d. by apply Hwrite. }
  destruct (nth 0 (cmdBuf s) 0) as [|p|p];
    repeat match goal with
           | |- context [match ?x with _ => _ end] => destruct x
           end;
    first [done | by apply confined_status | auto].
Qed.

End Confined.

(** What the range check guarantees of the blocks the loops visit. *)
Lemma outOfRange_visits b blocks (i : nat) :
  outOfRange (blockNumber (frame b)) (nth 4 (frame b) 0) blocks = false ->
  (i < Z.to_nat (nth 4 (frame b) 0%Z))%nat ->
  blockNumber (frame b) <= blockNumber (frame b) + Z.of_nat i
    < blockNumber (frame b) + nth 4 (frame b) 0 /\
  blockNumber (frame b) + Z.of_nat i < blocks.
Proof.
  intros Hout Hi.
  pose proof (blockNumber_range b). pose proof (frame_byte b 4).
  unfold outOfRange, u32 in Hout. apply Z.leb_gt in Hout.
  rewrite Z.mod_small in Hout by lia. lia.
Qed.

(** The events of a cycle, sorted by what a card access must satisfy. *)
Lemma loop_confined env b s :
  let inRange k :=
    blockNumber (frame b) <= k < blockNumber (frame b) + nth 4 (frame b) 0 /\
    k < capacityAtDispatch env s in
  Forall (fun e => match e with
                   | EvCardRead k => nth 0 (frame b) 0 = 0x08 /\ inRange k
                   | EvCardWrite k _ => nth 0 (frame b) 0 = 0x0A /\ inRange k
                   | _ => True
                   end) (events (loop env b s)).
Proof.
  intros inRange.
  destruct (cardUsable env s) eqn:Hg.
  - rewrite loop_usable_events by done.
    apply Forall_app; split; [destruct (sdReady s); by repeat constructor|].
    apply execute_confined; try done;
      rewrite atDispatch_cmdBuf, atDispatch_sdBlocks; intros Hop Hout i.
    + intros Hi. split; [done|]. by apply outOfRange_visits.
    + intros d Hi. split; [done|]. by apply outOfRange_visits.
  - unfold cardUsable in Hg. apply orb_false_elim in Hg as [Hr Hi].
    rewrite loop_not_ready by done. by repeat constructor.
Qed.

(** X22: the card is read only on behalf of a Read-block command, and
    only inside the range the command asks for, which the range check has
    found to lie within the capacity on record; this holds whatever the
    card answers, retries included. *)
Theorem card_read_in_range env b s k :
  In (EvCardRead k) (events (loop env b s)) ->
  nth 0 (frame b) 0 = 0x08 /\
  blockNumber (frame b) <= k < blockNumber (frame b) + nth 4 (frame b) 0 /\
  k < capacityAtDispatch env s.
Proof.
  intros Hin. pose proof (loop_confined env b s) as Hall.
  cbn zeta in Hall. rewrite List.Forall_forall in Hall. exact (Hall _ Hin).
Qed.

(** Block 10 is read on behalf of a read of blocks 10 and 11. *)
Lemma card_read_in_range_witness :
  nth 0 (frame [0x0800; 0; 0; 0x0A00; 0x0200; 0]) 0 = 0x08 /\
  blockNumber (frame [0x0800; 0; 0; 0x0A00; 0x0200; 0]) <= 10
    < blockNumber (frame [0x0800; 0; 0; 0x0A00; 0x0200; 0])
      + nth 4 (frame [0x0800; 0; 0; 0x0A00; 0x0200; 0]) 0 /\
  10 < capacityAtDispatch goodCard (readyState 100).
Proof.
  apply (card_read_in_range goodCard [0x0800; 0; 0; 0x0A00; 0x0200; 0]
           (readyState 100) 10).
  vm_compute. right; left; reflexivity.
Defined.

(** X23: the card is written only on behalf of a Write-block command,
    and only inside the range the command asks for, which the range check
    has found to lie within the capacity on record; this holds whatever
    the card answers, retries included. *)
Theorem card_write_in_range env b s k d :
  In (EvCardWrite k d) (events (loop env b s)) ->
  nth 0 (frame b) 0 = 0x0A /\
  blockNumber (frame b) <= k < blockNumber (frame b) + nth 4 (frame b) 0 /\
  k < capacityAtDispatch env s.
Proof.
  intros Hin. pose proof (loop_confined env b s) as Hall.
  cbn zeta in Hall. rewrite List.Forall_forall in Hall. exact (Hall _ Hin).
Qed.

(** Block 11 is written on behalf of a write of blocks 10 and 11. *)
Lemma card_write_in_range_witness :
  nth 0 (frame [0x0A00; 0; 0; 0x0A00; 0x0200; 0]) 0 = 0x0A /\
  blockNumber (frame [0x0A00; 0; 0; 0x0A00; 0x0200; 0]) <= 11
    < blockNumber (frame [0x0A00; 0; 0; 0x0A00; 0x0200; 0])
      + nth 4 (frame [0x0A00; 0; 0; 0x0A00; 0x0200; 0]) 0 /\
  11 < capacityAtDispatch goodCard (readyState 100).
Proof.
  apply (card_write_in_range goodCard [0x0A00; 0; 0; 0x0A00; 0x0200; 0]
           (readyState 100) 11 (replicate 512 1)).
  vm_compute. do 5 right; left; reflexivity.
Defined.

(** ** The card's record changes only at [card.init] *)

Lemma steady_keeps {A X} (f : State -> X) (m : M A) : keeps f m -> steady f m.
Proof. intros Hm s _. apply Hm. Qed.

Lemma steady_bind {A B X} (f : State -> X) (m : M A) (k : A -> M B) :
  steady f m -> (forall a, steady f (k a)) -> steady f (m ≫= k).
Proof.
  intros Hm Hk s H. rewrite events_bind, inits_app in H.
  rewrite final_bind, Hk, Hm by lia. done.
Qed.

Lemma steady_sdInit {X} (f : State -> X) env : steady f (sdInit env).
Proof. intros s H. by rewrite sdInit_run in H. Qed.

Lemma steady_retryLoop {X} (f : State -> X) env op tries :
  steady f op -> steady f (retryLoop env op tries).
Proof.
  intros Hop; induction tries as [|t IH]; cbn [retryLoop].
  - apply steady_bind; [done|]. intros []; apply steady_keeps, keeps_ret.
  - apply steady_bind; [done|]. intros []; [apply steady_keeps, keeps_ret|].
    do 2 (apply steady_bind; [apply steady_keeps, keeps_emit|intros _]).
    destruct (_ <=? _); [|done].
    apply steady_bind; [apply steady_sdInit|].
    intros []; [done|apply steady_keeps, keeps_ret].
Qed.

Section Steady.

Context {X : Type} (f : State -> X).

(** [f] looks at nothing but what [sdInit] stores. *)
Hypothesis f_cmdBuf : forall c s, f (set_cmdBuf c s) = f s.
Hypothesis f_dataBuf : forall d s, f (set_dataBuf d s) = f s.
Hypothesis f_tick_read : forall s, f (tick_read s) = f s.
Hypothesis f_tick_write : forall s, f (tick_write s) = f s.
Hypothesis f_tick_dma : forall s, f (tick_dma s) = f s.

Lemma steady_readBlock env block : steady f (readBlock env block).
Proof.
  unfold readBlock. apply steady_retryLoop, steady_keeps.
  by apply keeps_cardRead.
Qed.

Lemma steady_writeBlock env block : steady f (writeBlock env block).
Proof.
  unfold writeBlock. apply steady_retryLoop, steady_keeps.
  by apply keeps_cardWrite.
Qed.

Lemma steady_status c : steady f (sendStatus c).
Proof. apply steady_keeps, keeps_emit. Qed.

Lemma steady_readLoop env n base : steady f (readLoop env n base).
Proof.
  revert base; induction n as [|n IH]; intros base; cbn [readLoop];
    [apply steady_status|].
  apply steady_bind; [apply steady_keeps, keeps_emit|intros _].
  apply steady_bind; [apply steady_readBlock|].
  intros []; cbn [negb]; [|apply steady_status].
  apply steady_bind; [|done]. by apply steady_keeps, keeps_sendDma.
Qed.

Lemma steady_writeLoop env n base : steady f (writeLoop env n base).
Proof.
  revert base; induction n as [|n IH]; intros base; cbn [writeLoop];
    [apply steady_status|].
  apply steady_bind; [apply steady_keeps, keeps_emit|intros _].
  apply steady_bind; [by apply steady_keeps, keeps_readDma|intros _].
  apply steady_bind; [apply steady_writeBlock|].
  intros []; cbn [negb]; [done|apply steady_status].
Qed.

Lemma steady_execute env : steady f (execute env).
Proof.
  assert (Hms : steady f modeSense) by (by apply steady_keeps, keeps_modeSense).
  assert (Hin : steady f inquiry) by (by apply steady_keeps, keeps_inquiry).
  assert (Htr : steady f (testReady env)).
  { unfold testReady. apply steady_bind; [apply steady_sdInit|].
    intros []; apply steady_status. }
  assert (Hrs : steady f (requestSense env)).
  { intros s H. unfold requestSense in H.
    by rewrite events_bind, sdInit_run in H. }
  assert (Hrd : steady f (readCommand env)).
  { unfold readCommand.
    do 2 (apply steady_bind; [apply steady_keeps, keeps_gets|intros ?]).
    destruct (outOfRange _ _ _); [apply steady_status|apply steady_readLoop]. }
  assert (Hwr : steady f (writeCommand env)).
  { unfold writeCommand.
    do 2 (apply steady_bind; [apply steady_keeps, keeps_gets|intros ?]).
    destruct (outOfRange _ _ _); [apply steady_status|apply steady_writeLoop]. }
  unfold execute, cmd.
  apply steady_bind; [apply steady_keeps, keeps_gets|intros op].
  repeat match goal with
         | |- steady f (match ?x with _ => _ end) => destruct x
         end;
    first [done | apply steady_status].
Qed.

Lemma steady_loop env b : steady f (loop env b).
Proof.
  unfold loop, waitCommand.
  apply steady_bind; [by apply steady_keeps, keeps_modify|intros _].
  apply steady_bind; [apply steady_keeps, keeps_gets|intros ready].
  destruct ready; cbn [negb]; [apply steady_execute|].
  apply steady_bind; [apply steady_sdInit|].
  intros []; cbn [negb]; [apply steady_execute|apply steady_status].
Qed.

End Steady.

(** X24: [sdReady] and [sdBlocks] are written by [sdInit] alone.  A
    command cycle in which [card.init] is not called, whatever it reads,
    writes or fails to, leaves the ready flag and the capacity on record
    as they were. *)
Theorem record_changes_only_at_init env b s :
  inits (events (loop env b s)) = 0%nat ->
  sdReady (final (loop env b s)) = sdReady s /\
  sdBlocks (final (loop env b s)) = sdBlocks s.
Proof.
  intros H. split.
  - by apply (steady_loop sdReady).
  - by apply (steady_loop sdBlocks).
Qed.

(** A read of two blocks on a working card of 100 blocks. *)
Lemma record_changes_only_at_init_witness :
  sdReady (final (loop goodCard [0x0800; 0; 0; 0x0A00; 0x0200; 0] (readyState 100)))
    = true /\
  sdBlocks (final (loop goodCard [0x0800; 0; 0; 0x0A00; 0x0200; 0] (readyState 100)))
    = 100.
Proof.
  apply (record_changes_only_at_init goodCard [0x0800; 0; 0; 0x0A00; 0x0200; 0]
           (readyState 100)).
  vm_compute. reflexivity.
Defined.
